(** * Linear KdV finite-difference stepper (notebooks/KdV.ipynb)

    A shallow embedding of the numerical core of the notebook: the
    spatial and time parameters, the periodic third-derivative stencil
    [third_d] built from [np.roll], and the forward-Euler time loop.

    numpy arrays are lists; [np.roll] is embedded from numpy's slice
    assignments.  The stepper is written once over an interface of scalar
    operations, with two instances: exact rational arithmetic [Q] (the
    arithmetic the mathematical statements are about) and IEEE binary64
    ([float]), the arithmetic numpy runs, which has the infinities and
    NaN.  The cosine of the initial condition and of the animation
    frames lives in a third instance, the reals.

    The parameter cell and the run of the loop, with the exceptions
    Python raises, are embedded in binary64; statements that hold in
    exact arithmetic only say so and are proved over the rationals or
    the reals. *)

From Stdlib Require Import Reals Lra.
From Stdlib Require Import ZArith QArith Qround List Permutation Bool Lia Lqa.
From Stdlib Require Import PrimFloat SpecFloat FloatOps FloatAxioms.
Import ListNotations.

Set Implicit Arguments.

(** ** Scalars *)

(** The operations the stepper applies to array elements and to the
    scalars [dx] and [dt]: the literal [2], [+], [-], [*], [/] and
    [**3]. *)
Class Scalar (A : Type) : Type := {
  zero : A;
  two : A;
  add : A -> A -> A;
  sub : A -> A -> A;
  mul : A -> A -> A;
  div : A -> A -> A;
  cube : A -> A
}.

(** Exact rationals.  [Qdiv] is total, with [q / 0 == 0], where numpy
    yields an infinity or a NaN: a quotient means what it does in the
    code for a divisor other than zero. *)
#[export] Instance Q_scalar : Scalar Q := {
  zero := 0%Q;
  two := 2%Q;
  add := Qplus;
  sub := Qminus;
  mul := Qmult;
  div := Qdiv;
  cube := fun q => (q ^ 3)%Q
}.

(** The value of [dx**3] on a Python float that is not an exception:
    CPython returns NaN, the infinities and the zeros as they are and
    calls libm's [pow(|dx|, 3.0)] otherwise, taken here to be correctly
    rounded: the exact cube rounded once to the nearest binary64 number
    (ties to even), an infinity when the cube is out of range, a zero or
    a subnormal when it underflows.  No proof depends on how the cube is
    rounded, and the evaluations on closed inputs use [dx = 1], whose
    cube is exact, and [dx = 2^-400], whose cube underflows to zero. *)
Definition cube64 (x : float) : float :=
  match Prim2SF x with
  | S754_finite s m e =>
      SF2Prim (binary_round prec emax s (m * m * m)%positive (3 * e)%Z)
  | _ => x
  end.

(** binary64, the arithmetic numpy and Python floats run. *)
#[export] Instance float_scalar : Scalar float := {
  zero := 0%float;
  two := 2%float;
  add := PrimFloat.add;
  sub := PrimFloat.sub;
  mul := PrimFloat.mul;
  div := PrimFloat.div;
  cube := cube64
}.

(** ** Arrays *)

Section Arrays.
Context {A : Type}.

(** [np.roll(a, shift)] on a one-dimensional array:
<<
    offset %= a.shape[ax] or 1
    result[offset:] = a[:-offset];  result[:offset] = a[-offset:]
>>
    that is, [a[n-offset:]] followed by [a[:n-offset]]. *)
Definition roll (a : list A) (shift : Z) : list A :=
  let n := Z.of_nat (length a) in
  let offset := (shift mod (if n =? 0 then 1 else n))%Z in
  skipn (Z.to_nat (n - offset)) a ++ firstn (Z.to_nat (n - offset)) a.

(** Elementwise binary operation on two arrays of one shape. *)
Fixpoint ewise (f : A -> A -> A) (a b : list A) : list A :=
  match a, b with
  | x :: a', y :: b' => f x y :: ewise f a' b'
  | _, _ => []
  end.

Context {ops : Scalar A}.

Definition arr_add (a b : list A) : list A := ewise add a b.
Definition arr_sub (a b : list A) : list A := ewise sub a b.
(** scalar [*] array and array [/] scalar *)
Definition scal_mul (k : A) (a : list A) : list A := map (mul k) a.
Definition arr_div (a : list A) (k : A) : list A := map (fun x => div x k) a.

(** ** The stepper *)

(**
<<
  def third_d(u, dx):
      return (np.roll(u, -2) - 2*np.roll(u, -1) + 2*np.roll(u, 1) - np.roll(u, 2)) / (2*dx**3)
>> *)
Definition third_d (u : list A) (dx : A) : list A :=
  arr_div
    (arr_sub
       (arr_add
          (arr_sub (roll u (-2)) (scal_mul two (roll u (-1))))
          (scal_mul two (roll u 1)))
       (roll u 2))
    (mul two (cube dx)).

(** The loop body [u0 = u0 - dt * third_d(u0, dx)]: the right-hand side
    is a new array, built from the array bound to [u0] before the
    assignment. *)
Definition loop_body (dt dx : A) (u0 : list A) : list A :=
  arr_sub u0 (scal_mul dt (third_d u0 dx)).

(** [for n in range(Nt): u0 = u0 - dt * third_d(u0, dx)], with
    [range(Nt)] run through from its first element. *)
Fixpoint time_loop (dt dx : A) (Nt : nat) (u0 : list A) : list A :=
  match Nt with
  | O => u0
  | S k => time_loop dt dx k (loop_body dt dx u0)
  end.

(** Array element [u[i]] for [0 <= i < len(u)]. *)
Definition item (u : list A) (i : nat) : A := nth i u zero.

(** Periodic index: [j mod N] as a position of the array. *)
Definition wrap (N : nat) (j : Z) : nat := Z.to_nat (j mod Z.of_nat N).

End Arrays.

Declare Scope scalar_scope.
Delimit Scope scalar_scope with sc.
Infix "+" := add : scalar_scope.
Infix "-" := sub : scalar_scope.
Infix "*" := mul : scalar_scope.
Infix "/" := div : scalar_scope.

(** ** Results of the cells that can raise *)

(** The Python exceptions the cells can raise: a float division by
    zero; [np.linspace] called with a negative [num] and [int] of a NaN;
    [int] of an infinity, an int too large for a float, and a [dx**3]
    out of range. *)
Inductive py_exn : Type := ZeroDivisionError | ValueError | OverflowError.

Inductive result (E A : Type) : Type :=
| Ok (a : A)
| Raise (e : E).
Arguments Ok {E A} a.
Arguments Raise {E A} e.

Definition bind {E A B : Type} (c : result E A) (k : A -> result E B) : result E B :=
  match c with
  | Ok a => k a
  | Raise e => Raise e
  end.

Notation "x <- c ;; k" := (bind c (fun x => k))
  (at level 61, c at next level, right associativity).

Definition is_ok {E A : Type} (c : result E A) : bool :=
  match c with Ok _ => true | Raise _ => false end.

(** ** The parameter cell and the run, in binary64 *)

Record grid (A : Type) : Type := { grid_dx : A; grid_x : list A }.

(** The rational a binary64 number stands for: [(-1)^s * m * 2^e] for a
    finite number, 0 for the zeros (and for what has no value). *)
Definition SF2Q (x : spec_float) : Q :=
  match x with
  | S754_finite s m e =>
      match e with
      | Zneg k => cond_Zopp s (Zpos m) # (2 ^ k)%positive
      | _ => inject_Z (cond_Zopp s (Zpos m) * 2 ^ e)
      end
  | _ => 0%Q
  end.

Definition value (f : float) : Q := SF2Q (Prim2SF f).

(** The float nearest to an integer (ties to even), an infinity when
    the integer is out of range. *)
Definition Z2float (z : Z) : float :=
  SF2Prim (binary_normalize prec emax z 0 false).

(** A Python int where a float is needed: [OverflowError] when it is
    too large. *)
Definition float_of_int (z : Z) : result py_exn float :=
  if is_infinity (Z2float z) then Raise OverflowError else Ok (Z2float z).

(** Python's [a / b] on floats. *)
Definition truediv (a b : float) : result py_exn float :=
  if is_zero b then Raise ZeroDivisionError else Ok (a / b)%float.

(** A finite binary64 number rounded toward zero. *)
Definition SFtrunc (x : spec_float) : Z :=
  match x with
  | S754_finite s m e => cond_Zopp s (Z.shiftl (Zpos m) e)
  | _ => 0%Z
  end.

(** Python's [int(f)]: [ValueError] on a NaN, [OverflowError] on an
    infinity, rounding toward zero otherwise. *)
Definition int (f : float) : result py_exn Z :=
  if is_nan f then Raise ValueError
  else if is_infinity f then Raise OverflowError
  else Ok (SFtrunc (Prim2SF f)).

(** [np.linspace(start, stop, num, endpoint=False)], from numpy's
    source:
<<
    if num < 0: raise ValueError
    div = num
    delta = stop - start
    y = arange(0, num)
    if div > 0:
        step = delta / div
        if step == 0: y = y / div; y = y * delta
        else:         y = y * step
    else:
        y = y * delta
    y += start
>> *)
Definition linspace (start stop : float) (num : Z)
  : result py_exn (list float) :=
  if (num <? 0)%Z then Raise ValueError
  else
    let div := Z2float num in
    let delta := (stop - start)%float in
    let y := map (fun i => Z2float (Z.of_nat i)) (seq 0 (Z.to_nat num)) in
    let step := (delta / div)%float in
    Ok (map (fun yi =>
               ((if (0 <? num)%Z
                 then if is_zero step then yi / div * delta else yi * step
                 else yi * delta)
                + start)%float) y).

(**
<<
    dx = L/Nx
    x = np.linspace(0, L, Nx, endpoint=False)
>> *)
Definition spatial_parameters (L : float) (Nx : Z)
  : result py_exn (grid float) :=
  n <- float_of_int Nx ;;
  dx <- truediv L n ;;
  x <- linspace 0 L Nx ;;
  Ok {| grid_dx := dx; grid_x := x |}.

(** [Nt = int(T/dt)] *)
Definition time_parameters (T dt : float) : result py_exn Z :=
  q <- truediv T dt ;;
  int q.

(** The initial condition samples a function at the grid points (the
    notebook's is numpy's [cos(2*pi*x/L)], which raises nothing; it is
    the argument [f]). *)
Definition initial_condition (f : float -> float) (x : list float)
  : list float := map f x.

(** [dx**3] on a Python float: [OverflowError] when the cube of a finite
    [dx] is out of range. *)
Definition pow3 (dx : float) : result py_exn float :=
  if is_finite dx && is_infinity (cube64 dx) then Raise OverflowError
  else Ok (cube64 dx).

(** A call [third_d(u, dx)]: the array, unless [dx**3] raises. *)
Definition call_third_d (u : list float) (dx : float)
  : result py_exn (list float) :=
  _ <- pow3 dx ;;
  Ok (third_d u dx).

(** The run of [for n in range(Nt): u0 = u0 - dt * third_d(u0, dx)]. *)
Fixpoint run_time_loop (dt dx : float) (Nt : nat) (u0 : list float)
  : result py_exn (list float) :=
  match Nt with
  | O => Ok u0
  | S k =>
      d <- call_third_d u0 dx ;;
      run_time_loop dt dx k (arr_sub u0 (scal_mul dt d))
  end.

(** The parameter cell followed by the time loop; [range(Nt)] is empty
    for a negative [Nt]. *)
Definition simulation (L : float) (Nx : Z) (T dt : float) (f : float -> float)
  : result py_exn (list float) :=
  g <- spatial_parameters L Nx ;;
  Nt <- time_parameters T dt ;;
  run_time_loop dt (grid_dx g) (Z.to_nat Nt) (initial_condition f (grid_x g)).

(** A quotient that is zero or a positive finite number. *)
Definition nonneg_finite (f : float) : bool :=
  match Prim2SF f with
  | S754_zero _ => true
  | S754_finite false _ _ => true
  | _ => false
  end.

(** ** The spatial parameters read in exact arithmetic *)




(** Sum of the entries of an array. *)
Definition total (u : list Q) : Q := fold_right Qplus 0%Q u.

(** Two arrays with equal rationals at every index. *)
Definition arr_eq (u v : list Q) : Prop := Forall2 Qeq u v.

(** ** binary64 *)

Definition nonfinite (f : float) : bool := negb (is_finite f).
Definition has_nonfinite (u : list float) : bool := existsb nonfinite u.

(** ** The specification's words, for comparison with the code *)

(** The stencil as the specification writes it:
    [(u_{i-2} - 2 u_{i-1} + 2 u_{i+1} - u_{i+2}) / (2 dx^3)]. *)
Definition spec_D3 (u : list Q) (dx : Q) (i : nat) : Q :=
  let N := length u in
  let at_ (k : Z) := item u (wrap N (Z.of_nat i + k)) in
  ((at_ (-2)%Z - 2 * at_ (-1)%Z + 2 * at_ 1%Z - at_ 2%Z) / (2 * dx ^ 3))%Q.

Inductive spec_error : Type := InvalidGrid | NonFiniteState.

(** The integration as the specification's error handling describes it:
    the state is scanned after each step and the run aborts on a NaN or
    an infinity. *)
Fixpoint spec_checked_loop (dt dx : float) (Nt : nat) (u0 : list float)
  : result spec_error (list float) :=
  match Nt with
  | O => Ok u0
  | S k =>
      let u1 := loop_body dt dx u0 in
      if has_nonfinite u1 then Raise NonFiniteState
      else spec_checked_loop dt dx k u1
  end.

(** ** Sample inputs *)

Definition u_pulse : list Q := [1; 0; 0; 0; 0]%Q.
Definition u_ramp : list Q := [0; 1; 2; 3; 4]%Q.
Definition f_big : list float := [0x1p1023; 0; 0; 0; 0]%float.

(** The binary64 numbers the literals [0.3], [0.1] and [0.001] denote. *)
Definition f_0_3 : float := 0x1.3333333333333p-2%float.
Definition f_0_1 : float := 0x1.999999999999ap-4%float.
Definition f_0_001 : float := 0x1.0624dd2f1a9fcp-10%float.

(** ** The cosine wave and the animation frames, over the reals *)

(** The reals have the cosine the initial condition and the animation
    call; as with the rationals, a quotient means what it does in the
    code for a divisor other than zero. *)
#[export] Instance R_scalar : Scalar R := {
  zero := 0%R;
  two := 2%R;
  add := Rplus;
  sub := Rminus;
  mul := Rmult;
  div := Rdiv;
  cube := fun r => (r ^ 3)%R
}.

(** [np.linspace(start, stop, num, endpoint=False)] for a point count
    [num >= 0], over the reals. *)
Definition linspace_real (start stop : R) (num : nat) : list R :=
  map (fun i => (INR i * ((stop - start) / INR num) + start)%R) (seq 0 num).

(** [u0 = np.cos(2*np.pi * x/L)] *)
Definition cos_wave (L : R) (x : list R) : list R :=
  map (fun xj => cos (2 * PI * xj / L)%R) x.

(**
<<
    def animate(i):
        u = np.cos(2*np.pi * (x/L - i*dt/T))
        line.set_data(x, u)
        return line,
>>
    The result is the data the line holds after the call, with the
    cosine and its argument over the reals (exact arithmetic, for
    [L <> 0]); [i*dt/T] is a division of Python floats, a
    [ZeroDivisionError] for [T = 0]. *)
Definition animate (L T dt : R) (x : list R) (i : nat)
  : result py_exn (list R * list R) :=
  if Req_dec_T T 0%R then Raise ZeroDivisionError
  else Ok (x, map (fun xj => cos (2 * PI * (xj / L - INR i * dt / T))%R) x).

(** ** Measures of a state, in exact arithmetic *)

(** Sum of the products of the entries of two arrays, and the sum of
    squares of one. *)
Definition dot (u v : list Q) : Q := total (ewise Qmult u v).
Definition energy (u : list Q) : Q := dot u u.

(** The array of opposites, and the combination [a*u + b*v]. *)
Definition arr_neg (u : list Q) : list Q := map Qopp u.
Definition lin_comb (a : Q) (u : list Q) (b : Q) (v : list Q) : list Q :=
  arr_add (scal_mul a u) (scal_mul b v).

(** * Properties *)

(** ** Arrays: lengths and entries *)

Section ArrayFacts.
Context {A : Type}.

Lemma length_roll (a : list A) (k : Z) : length (roll a k) = length a.
Proof.
  unfold roll. rewrite length_app, length_skipn, length_firstn. lia.
Qed.

Lemma roll_nil (k : Z) : roll (@nil A) k = [].
Proof.
  unfold roll. now rewrite skipn_nil, firstn_nil.
Qed.

Lemma wrap_lt (N : nat) (j : Z) : (0 < N)%nat -> (wrap N j < N)%nat.
Proof.
  intros HN. unfold wrap.
  pose proof (Z.mod_pos_bound j (Z.of_nat N)). lia.
Qed.

Lemma wrap_wrap_sub (N : nat) (j k : Z) :
  (0 < N)%nat -> wrap N (Z.of_nat (wrap N j) - k) = wrap N (j - k).
Proof.
  intros HN. unfold wrap.
  rewrite Z2Nat.id by (apply Z.mod_pos_bound; lia).
  now rewrite Zminus_mod_idemp_l.
Qed.

(** Entry [i] of [np.roll(a, k)] is entry [(i - k) mod N] of [a]. *)
Lemma nth_roll (a : list A) (k : Z) (i : nat) (d : A) :
  (i < length a)%nat ->
  nth i (roll a k) d = nth (wrap (length a) (Z.of_nat i - k)) a d.
Proof.
  intros Hi. unfold roll, wrap.
  set (n := Z.of_nat (length a)).
  assert (Hn : (0 < n)%Z) by (subst n; lia).
  replace (n =? 0)%Z with false by (symmetry; apply Z.eqb_neq; lia).
  pose proof (Z.mod_pos_bound k n Hn) as Hoff.
  set (offset := (k mod n)%Z) in *.
  assert (Hk : (k = n * (k / n) + offset)%Z) by (apply Z_div_mod_eq_full).
  destruct (Nat.lt_ge_cases i (Z.to_nat offset)) as [Hlo | Hhi].
  - rewrite app_nth1 by (rewrite length_skipn; lia).
    rewrite nth_skipn. f_equal.
    assert (E : ((Z.of_nat i - k) mod n = Z.of_nat i + n - offset)%Z).
    { symmetry. apply Z.mod_unique with (q := (- (k / n) - 1)%Z); lia. }
    rewrite E. lia.
  - rewrite app_nth2 by (rewrite length_skipn; lia).
    rewrite length_skipn.
    rewrite nth_firstn.
    replace (length a - Z.to_nat (n - offset))%nat with (Z.to_nat offset) by lia.
    assert (E : ((Z.of_nat i - k) mod n = Z.of_nat i - offset)%Z).
    { symmetry. apply Z.mod_unique with (q := (- (k / n))%Z); lia. }
    rewrite E.
    replace (i - Z.to_nat offset <? Z.to_nat (n - offset))%nat with true
      by (symmetry; apply Nat.ltb_lt; lia).
    f_equal. lia.
Qed.

Lemma length_ewise (f : A -> A -> A) (a b : list A) :
  length (ewise f a b) = Nat.min (length a) (length b).
Proof.
  revert b. induction a as [|x a IH]; intros [|y b]; simpl; auto.
Qed.

Lemma nth_ewise (f : A -> A -> A) (a b : list A) (i : nat) (d : A) :
  (i < length a)%nat -> (i < length b)%nat ->
  nth i (ewise f a b) d = f (nth i a d) (nth i b d).
Proof.
  revert b i. induction a as [|x a IH]; intros [|y b] [|i]; simpl; try lia; auto.
  intros. apply IH; lia.
Qed.

Lemma nth_map_lt (f : A -> A) (a : list A) (i : nat) (d : A) :
  (i < length a)%nat -> nth i (map f a) d = f (nth i a d).
Proof.
  intros Hi. rewrite nth_indep with (d' := f d) by (now rewrite length_map).
  apply map_nth.
Qed.

Lemma nth_map_seq {B : Type} (f : nat -> B) (n j : nat) (d : B) :
  (j < n)%nat -> nth j (map f (seq 0 n)) d = f j.
Proof.
  intros Hj.
  rewrite (nth_indep _ d (f 0%nat)) by (rewrite length_map, length_seq; lia).
  rewrite map_nth, seq_nth by lia. reflexivity.
Qed.

Lemma roll_map (f : A -> A) (a : list A) (k : Z) :
  roll (map f a) k = map f (roll a k).
Proof.
  unfold roll. now rewrite length_map, skipn_map, firstn_map, map_app.
Qed.

Lemma roll_ewise_dflt (d : A) (f : A -> A -> A) (a b : list A) (k : Z) :
  length a = length b ->
  roll (ewise f a b) k = ewise f (roll a k) (roll b k).
Proof.
  intros Hab.
  assert (Hl : length (ewise f a b) = length a)
    by (rewrite length_ewise; lia).
  apply nth_ext with (d := d) (d' := d).
  - now rewrite length_ewise, !length_roll, Hl, <- Hab, Nat.min_id.
  - intros i Hi. rewrite length_roll, Hl in Hi.
    assert (Hw : (wrap (length a) (Z.of_nat i - k) < length a)%nat)
      by (apply wrap_lt; lia).
    rewrite nth_roll by lia.
    rewrite Hl, nth_ewise by lia.
    symmetry. rewrite nth_ewise by (rewrite length_roll; lia).
    rewrite !nth_roll by lia.
    now rewrite <- Hab.
Qed.

Lemma roll_ewise (f : A -> A -> A) (a b : list A) (k : Z) :
  length a = length b ->
  roll (ewise f a b) k = ewise f (roll a k) (roll b k).
Proof.
  destruct a as [|x a'].
  - destruct b; [now rewrite !roll_nil | discriminate].
  - apply (roll_ewise_dflt x).
Qed.

Lemma roll_roll_dflt (d : A) (a : list A) (j k : Z) :
  (0 < length a)%nat -> roll (roll a j) k = roll a (j + k).
Proof.
  intros HN.
  apply nth_ext with (d := d) (d' := d).
  - now rewrite !length_roll.
  - intros i Hi. rewrite !length_roll in Hi.
    rewrite nth_roll by (now rewrite length_roll).
    rewrite length_roll.
    rewrite nth_roll by (now apply wrap_lt).
    rewrite nth_roll by assumption.
    rewrite wrap_wrap_sub by assumption.
    do 2 f_equal. lia.
Qed.

(** Rolls compose by adding the shifts, so they commute. *)
Lemma roll_roll (a : list A) (j k : Z) :
  roll (roll a j) k = roll a (j + k).
Proof.
  destruct a as [|x a'].
  - now rewrite !roll_nil.
  - apply (roll_roll_dflt x). simpl. lia.
Qed.

Lemma roll_comm (a : list A) (j k : Z) :
  roll (roll a j) k = roll (roll a k) j.
Proof.
  rewrite !roll_roll. f_equal. lia.
Qed.

(** A shift by the length of the array is no shift. *)
Lemma roll_length (a : list A) : roll a (Z.of_nat (length a)) = a.
Proof.
  unfold roll. destruct a as [|x a']; [reflexivity|].
  set (n := Z.of_nat (length (x :: a'))).
  assert (Hn : (0 < n)%Z) by (subst n; simpl length; lia).
  replace (n =? 0)%Z with false by (symmetry; apply Z.eqb_neq; lia).
  rewrite Z_mod_same_full, Z.sub_0_r.
  subst n. rewrite Nat2Z.id, skipn_all, firstn_all. reflexivity.
Qed.

End ArrayFacts.

(** ** Lengths of the arrays the stepper builds *)

Section ArrayLengths.
Context {A : Type} {ops : Scalar A}.

Lemma length_scal_mul (k : A) (a : list A) : length (scal_mul k a) = length a.
Proof. apply length_map. Qed.

Lemma length_arr_div (a : list A) (k : A) : length (arr_div a k) = length a.
Proof. apply length_map. Qed.

Lemma length_arr_sub (a b : list A) :
  length a = length b -> length (arr_sub a b) = length a.
Proof. intros H. unfold arr_sub. rewrite length_ewise. lia. Qed.

Lemma length_arr_add (a b : list A) :
  length a = length b -> length (arr_add a b) = length a.
Proof. intros H. unfold arr_add. rewrite length_ewise. lia. Qed.

End ArrayLengths.

(** Lengths of arrays built by the elementwise operations and [roll]. *)
Ltac arr_len :=
  repeat first
    [ rewrite length_scal_mul
    | rewrite length_arr_div
    | rewrite length_roll
    | rewrite length_arr_sub
    | rewrite length_arr_add ];
  try reflexivity; try lia.

(** ** The stencil and one step, for any scalar arithmetic *)

Section StepperFacts.
Context {A : Type} {ops : Scalar A}.

Lemma length_third_d (u : list A) (dx : A) : length (third_d u dx) = length u.
Proof. unfold third_d. arr_len. Qed.

Lemma length_loop_body (dt dx : A) (u : list A) :
  length (loop_body dt dx u) = length u.
Proof.
  unfold loop_body. rewrite length_arr_sub; [reflexivity|].
  now rewrite length_scal_mul, length_third_d.
Qed.

Lemma length_time_loop (dt dx : A) (Nt : nat) (u : list A) :
  length (time_loop dt dx Nt u) = length u.
Proof.
  revert u. induction Nt as [|k IH]; intros u; simpl; [reflexivity|].
  now rewrite IH, length_loop_body.
Qed.

Lemma item_arr_sub (a b : list A) (i : nat) :
  (i < length a)%nat -> (i < length b)%nat ->
  item (arr_sub a b) i = (item a i - item b i)%sc.
Proof. apply nth_ewise. Qed.

Lemma item_arr_add (a b : list A) (i : nat) :
  (i < length a)%nat -> (i < length b)%nat ->
  item (arr_add a b) i = (item a i + item b i)%sc.
Proof. apply nth_ewise. Qed.

Lemma item_scal_mul (k : A) (a : list A) (i : nat) :
  (i < length a)%nat -> item (scal_mul k a) i = (k * item a i)%sc.
Proof. apply (nth_map_lt (mul k)). Qed.

Lemma item_arr_div (a : list A) (k : A) (i : nat) :
  (i < length a)%nat -> item (arr_div a k) i = (item a i / k)%sc.
Proof. apply (nth_map_lt (fun x => div x k)). Qed.

Lemma item_roll (a : list A) (k : Z) (i : nat) :
  (i < length a)%nat ->
  item (roll a k) i = item a (wrap (length a) (Z.of_nat i - k)).
Proof. apply nth_roll. Qed.

(** The entries of [third_d(u, dx)], read off the four rolled arrays. *)
Lemma item_third_d (u : list A) (dx : A) (i : nat) :
  (i < length u)%nat ->
  item (third_d u dx) i =
  ((item u (wrap (length u) (Z.of_nat i + 2))
    - two * item u (wrap (length u) (Z.of_nat i + 1))
    + two * item u (wrap (length u) (Z.of_nat i - 1))
    - item u (wrap (length u) (Z.of_nat i - 2)))
   / (two * cube dx))%sc.
Proof.
  intros Hi. unfold third_d.
  rewrite item_arr_div by arr_len.
  rewrite item_arr_sub by arr_len.
  rewrite item_arr_add by arr_len.
  rewrite item_arr_sub by arr_len.
  rewrite !item_scal_mul by arr_len.
  rewrite !item_roll by assumption.
  replace (Z.of_nat i - -2)%Z with (Z.of_nat i + 2)%Z by lia.
  replace (Z.of_nat i - -1)%Z with (Z.of_nat i + 1)%Z by lia.
  reflexivity.
Qed.

Lemma time_loop_iter (dt dx : A) (Nt : nat) (u : list A) :
  time_loop dt dx Nt u = Nat.iter Nt (loop_body dt dx) u.
Proof.
  revert u. induction Nt as [|k IH]; intros u; [reflexivity|].
  simpl time_loop. rewrite IH. symmetry. apply Nat.iter_succ_r.
Qed.

Lemma time_loop_add (dt dx : A) (j k : nat) (u : list A) :
  time_loop dt dx (j + k) u = time_loop dt dx k (time_loop dt dx j u).
Proof.
  revert u. induction j as [|j IH]; intros u; [reflexivity|].
  simpl. apply IH.
Qed.

Lemma third_d_roll_comm (u : list A) (k : Z) (dx : A) :
  third_d (roll u k) dx = roll (third_d u dx) k.
Proof.
  unfold third_d, arr_div, arr_sub, arr_add, scal_mul.
  rewrite roll_map.
  rewrite roll_ewise
    by (rewrite !length_ewise, !length_map, !length_roll; lia).
  rewrite roll_ewise
    by (rewrite !length_ewise, !length_map, !length_roll; lia).
  rewrite roll_ewise by (rewrite !length_map, !length_roll; lia).
  rewrite !roll_map.
  now rewrite (roll_comm u k (-2)), (roll_comm u k (-1)),
    (roll_comm u k 1), (roll_comm u k 2).
Qed.

End StepperFacts.

(** ** Exact arithmetic: sums, constant arrays, array equality *)

Lemma arr_eq_items (u v : list Q) :
  length u = length v ->
  (forall i, (i < length u)%nat -> item u i == item v i) ->
  arr_eq u v.
Proof.
  revert v. induction u as [|x u IH]; intros [|y v] Hlen Hit;
    try discriminate; constructor.
  - apply (Hit 0%nat). simpl. lia.
  - apply IH; [simpl in Hlen; lia|].
    intros i Hi. apply (Hit (S i)). simpl. lia.
Qed.

Lemma arr_eq_refl (u : list Q) : arr_eq u u.
Proof. induction u; constructor; [reflexivity | assumption]. Qed.

Lemma total_app (a b : list Q) : total (a ++ b) == total a + total b.
Proof.
  induction a as [|x a IH]; simpl; [ring|]. rewrite IH. ring.
Qed.

Lemma total_roll (u : list Q) (k : Z) : total (roll u k) == total u.
Proof.
  unfold roll.
  set (m := Z.to_nat _).
  rewrite total_app.
  rewrite <- (firstn_skipn m u) at 3.
  rewrite total_app. ring.
Qed.

Lemma total_arr_sub (a b : list Q) :
  length a = length b -> total (arr_sub a b) == total a - total b.
Proof.
  revert b. induction a as [|x a IH]; intros [|y b] H; try discriminate.
  - simpl. ring.
  - simpl in *. rewrite (IH b) by lia. ring.
Qed.

Lemma total_arr_add (a b : list Q) :
  length a = length b -> total (arr_add a b) == total a + total b.
Proof.
  revert b. induction a as [|x a IH]; intros [|y b] H; try discriminate.
  - simpl. ring.
  - simpl in *. rewrite (IH b) by lia. ring.
Qed.

Lemma total_scal_mul (k : Q) (a : list Q) :
  total (scal_mul k a) == k * total a.
Proof.
  induction a as [|x a IH]; simpl; [ring|]. rewrite IH. ring.
Qed.

Lemma total_arr_div (a : list Q) (k : Q) :
  total (arr_div a k) == total a / k.
Proof.
  induction a as [|x a IH]; simpl.
  - unfold Qdiv. ring.
  - rewrite IH. unfold Qdiv. ring.
Qed.

Lemma total_third_d (u : list Q) (dx : Q) : total (third_d u dx) == 0.
Proof.
  unfold third_d.
  rewrite total_arr_div.
  rewrite total_arr_sub by arr_len.
  rewrite total_arr_add by arr_len.
  rewrite total_arr_sub by arr_len.
  rewrite !total_scal_mul, !total_roll.
  unfold Qdiv. simpl. ring.
Qed.

Lemma total_loop_body (dt dx : Q) (u : list Q) :
  total (loop_body dt dx u) == total u.
Proof.
  unfold loop_body.
  rewrite total_arr_sub by (now rewrite length_scal_mul, length_third_d).
  rewrite total_scal_mul, total_third_d. ring.
Qed.








(** ** The spatial parameters in exact arithmetic *)



(** * The stencil *)

(** C1, the statement as the specification has it, refuted: on the pulse
    [1, 0, 0, 0, 0] with [dx = 1], entry 1 of [third_d] is [1], while the
    specification's stencil [(u_{i-2} - 2 u_{i-1} + 2 u_{i+1} - u_{i+2}) /
    (2 dx^3)] gives [-1] there. *)
Lemma third_d_is_not_spec_D3 :
  item (third_d u_pulse 1%Q) 1 == 1 /\
  spec_D3 u_pulse 1 1 == - (1) /\
  ~ item (third_d u_pulse 1%Q) 1 == spec_D3 u_pulse 1 1.
Proof.
  repeat split; try reflexivity.
  intros H. vm_compute in H. discriminate H.
Qed.

(** C1, amended: for every state vector [u] and every index [i] of it,
    entry [i] of [third_d(u, dx)] is
    [(u_{i+2} - 2 u_{i+1} + 2 u_{i-1} - u_{i-2}) / (2 dx^3)] with the
    indices taken modulo the length [N] of [u], and [third_d(u, dx)] has
    length [N].  The stencil has the sign of the third derivative, the
    opposite of the specification's formula. *)
Theorem third_d_stencil {A : Type} {ops : Scalar A}
  (u : list A) (dx : A) (i : nat) :
  (i < length u)%nat ->
  length (third_d u dx) = length u /\
  item (third_d u dx) i =
  ((item u (wrap (length u) (Z.of_nat i + 2))
    - two * item u (wrap (length u) (Z.of_nat i + 1))
    + two * item u (wrap (length u) (Z.of_nat i - 1))
    - item u (wrap (length u) (Z.of_nat i - 2)))
   / (two * cube dx))%sc.
Proof.
  intros Hi. split.
  - apply length_third_d.
  - now apply item_third_d.
Qed.

(** At index 0 of the ramp [0, 1, 2, 3, 4] the neighbours are entries
    2, 1, 4 and 3. *)
Lemma third_d_stencil_witness :
  (0 < length u_ramp)%nat /\
  length (third_d u_ramp 1%Q) = length u_ramp /\
  item (third_d u_ramp 1%Q) 0 =
  ((item u_ramp 2 - 2 * item u_ramp 1 + 2 * item u_ramp 4 - item u_ramp 3)
   / (2 * 1 ^ 3))%Q.
Proof.
  assert (H : (0 < length u_ramp)%nat) by (simpl; lia).
  split; [exact H|].
  exact (third_d_stencil u_ramp 1%Q (i := 0) H).
Defined.

(** * One time step *)

(** C2: one pass of the loop body keeps the length of the state and, at
    every index [i], yields [u_i - dt * third_d(u, dx)_i], where the
    derivative entry is the stencil over entries of the state before the
    step. *)
Theorem loop_body_reads_old_state {A : Type} {ops : Scalar A}
  (dt dx : A) (u : list A) (i : nat) :
  (i < length u)%nat ->
  length (loop_body dt dx u) = length u /\
  item (loop_body dt dx u) i = (item u i - dt * item (third_d u dx) i)%sc /\
  item (loop_body dt dx u) i =
  (item u i
   - dt * ((item u (wrap (length u) (Z.of_nat i + 2))
            - two * item u (wrap (length u) (Z.of_nat i + 1))
            + two * item u (wrap (length u) (Z.of_nat i - 1))
            - item u (wrap (length u) (Z.of_nat i - 2)))
           / (two * cube dx)))%sc.
Proof.
  intros Hi.
  assert (E : item (loop_body dt dx u) i
              = (item u i - dt * item (third_d u dx) i)%sc).
  { unfold loop_body.
    rewrite item_arr_sub
      by (try rewrite length_scal_mul, length_third_d; assumption).
    rewrite item_scal_mul by (now rewrite length_third_d).
    reflexivity. }
  split; [apply length_loop_body|]. split; [exact E|].
  rewrite E. now rewrite item_third_d.
Qed.

Lemma loop_body_reads_old_state_witness :
  (1 < length u_pulse)%nat /\
  length (loop_body (1 # 2) 1%Q u_pulse) = length u_pulse /\
  item (loop_body (1 # 2) 1%Q u_pulse) 1
  = (item u_pulse 1 - (1 # 2) * item (third_d u_pulse 1%Q) 1)%Q /\
  item (loop_body (1 # 2) 1%Q u_pulse) 1
  = (item u_pulse 1
     - (1 # 2) * ((item u_pulse 3 - 2 * item u_pulse 2
                   + 2 * item u_pulse 0 - item u_pulse 4) / (2 * 1 ^ 3)))%Q.
Proof.
  assert (H : (1 < length u_pulse)%nat) by (simpl; lia).
  split; [exact H|].
  exact (loop_body_reads_old_state (1 # 2) 1%Q u_pulse (i := 1) H).
Defined.

(** * binary64: classes of numbers, [int] and the run of the loop *)

Lemma is_nan_Prim2SF (f : float) :
  is_nan f = match Prim2SF f with S754_nan => true | _ => false end.
Proof.
  unfold is_nan. rewrite eqb_spec.
  destruct (Prim2SF f) as [s|s| |s m e]; unfold SFeqb, SFcompare;
    try reflexivity.
  - now destruct s.
  - destruct s; now rewrite Z.compare_refl, Pos.compare_cont_refl.
Qed.

Lemma is_infinity_Prim2SF (f : float) :
  is_infinity f = match Prim2SF f with S754_infinity _ => true | _ => false end.
Proof.
  unfold is_infinity. rewrite eqb_spec, abs_spec.
  replace (Prim2SF infinity) with (S754_infinity false) by reflexivity.
  now destruct (Prim2SF f) as [s|s| |s m e].
Qed.

Lemma nonfinite_Prim2SF (f : float) :
  nonfinite f
  = match Prim2SF f with S754_nan | S754_infinity _ => true | _ => false end.
Proof.
  unfold nonfinite, is_finite.
  rewrite is_nan_Prim2SF, is_infinity_Prim2SF.
  now destruct (Prim2SF f).
Qed.

(** A NaN or an infinity minus anything is a NaN or an infinity. *)
Lemma nonfinite_sub (x y : float) :
  nonfinite x = true -> nonfinite (x - y)%float = true.
Proof.
  rewrite !nonfinite_Prim2SF, sub_spec. unfold SF64sub, SFsub.
  destruct (Prim2SF x) as [s|s| |s m e]; try discriminate; intros _.
  - destruct (Prim2SF y) as [s'|s'| |s' m' e']; try reflexivity.
    now destruct s, s'.
  - now destruct (Prim2SF y).
Qed.

Lemma SFtrunc_floor (m : positive) (e : Z) :
  SFtrunc (S754_finite false m e) = Qfloor (SF2Q (S754_finite false m e)) /\
  (0 <= SFtrunc (S754_finite false m e))%Z.
Proof.
  unfold SFtrunc, SF2Q, cond_Zopp. split.
  - destruct e as [|p|k].
    + now rewrite Qfloor_Z, Z.shiftl_mul_pow2 by lia.
    + now rewrite Qfloor_Z, Z.shiftl_mul_pow2 by lia.
    + unfold Qfloor. rewrite Pos2Z.inj_pow.
      change (Z.neg k) with (- Z.pos k)%Z.
      rewrite Z.shiftl_opp_r. apply Z.shiftr_div_pow2. lia.
  - apply Z.shiftl_nonneg. lia.
Qed.

(** [int] of a zero or of a positive finite number is the floor of its
    value. *)
Lemma int_nonneg_finite (f : float) :
  nonneg_finite f = true ->
  int f = Ok (Qfloor (value f)) /\ (0 <= Qfloor (value f))%Z.
Proof.
  unfold nonneg_finite, int, value.
  rewrite is_nan_Prim2SF, is_infinity_Prim2SF.
  destruct (Prim2SF f) as [s|s| |[|] m e]; try discriminate; intros _.
  - split; [reflexivity | now vm_compute].
  - destruct (SFtrunc_floor m e) as [E H]. rewrite <- E. now split.
Qed.

Lemma pow3_raises (dx : float) :
  is_ok (pow3 dx) = false -> pow3 dx = Raise OverflowError.
Proof.
  unfold pow3. now destruct (is_finite dx && is_infinity (cube64 dx)).
Qed.

(** The run of the loop: all [Nt] steps, unless [dx**3] raises in the
    first one. *)
Lemma run_time_loop_ok (dt dx : float) (Nt : nat) (u : list float) :
  is_ok (pow3 dx) = true ->
  run_time_loop dt dx Nt u = Ok (time_loop dt dx Nt u).
Proof.
  intros H. revert u. induction Nt as [|k IH]; intros u; [reflexivity|].
  simpl. unfold call_third_d.
  destruct (pow3 dx) as [c|e]; [|discriminate].
  simpl bind. apply IH.
Qed.

Lemma run_time_loop_raises (dt dx : float) (k : nat) (u : list float) :
  is_ok (pow3 dx) = false ->
  run_time_loop dt dx (S k) u = Raise OverflowError.
Proof.
  intros H. simpl. unfold call_third_d. now rewrite (pow3_raises dx H).
Qed.

Lemma run_time_loop_cases (dt dx : float) (Nt : nat) (u : list float) :
  run_time_loop dt dx Nt u
  = if is_ok (pow3 dx) || (Nt =? 0)%nat
    then Ok (Nat.iter Nt (loop_body dt dx) u)
    else Raise OverflowError.
Proof.
  destruct (is_ok (pow3 dx)) eqn:H.
  - simpl. now rewrite run_time_loop_ok, time_loop_iter.
  - destruct Nt as [|k]; [reflexivity|].
    simpl orb. cbv iota. now apply run_time_loop_raises.
Qed.

Lemma item_loop_body_float (dt dx : float) (u : list float) (i : nat) :
  (i < length u)%nat ->
  item (loop_body dt dx u) i
  = (item u i - dt * item (third_d u dx) i)%float.
Proof.
  intros Hi. unfold loop_body.
  rewrite item_arr_sub
    by (try rewrite length_scal_mul, length_third_d; assumption).
  now rewrite item_scal_mul by (now rewrite length_third_d).
Qed.

Lemma nonfinite_time_loop (dt dx : float) (Nt : nat) (u : list float) (i : nat) :
  (i < length u)%nat -> nonfinite (item u i) = true ->
  nonfinite (item (time_loop dt dx Nt u) i) = true.
Proof.
  revert u. induction Nt as [|k IH]; intros u Hi H; [exact H|].
  simpl. apply IH; [now rewrite length_loop_body|].
  rewrite item_loop_body_float by assumption.
  now apply nonfinite_sub.
Qed.

Lemma has_nonfinite_item (u : list float) (i : nat) :
  (i < length u)%nat -> nonfinite (item u i) = true -> has_nonfinite u = true.
Proof.
  intros Hi H. unfold has_nonfinite. apply existsb_exists.
  exists (item u i). split; [|exact H]. now apply nth_In.
Qed.

(** * The full integration *)

(** C3, the statement as the specification has it, refuted: the code
    takes [int] of the rounded binary64 quotient.  With [T = 0.3] and
    [dt = 0.1] it counts 2 steps, and the run applies the loop body
    twice, where the floor of 0.3/0.1 is 3; with the notebook's
    [T = 10.0], [dt = 0.001] it counts 10000 steps where the floor of
    the exact quotient of the two stored numbers is 9999. *)
Lemma step_count_is_not_the_exact_floor :
  time_parameters f_0_3 f_0_1 = Ok 2%Z /\
  Qfloor ((3 # 10) / (1 # 10)) = 3%Z /\
  simulation 8 8 f_0_3 f_0_1 (fun x => x)
  = Ok (loop_body f_0_1 1%float
          (loop_body f_0_1 1%float [0; 1; 2; 3; 4; 5; 6; 7]%float)) /\
  time_parameters 10 f_0_001 = Ok 10000%Z /\
  Qfloor (value 10 / value f_0_001) = 9999%Z.
Proof. repeat split; vm_compute; reflexivity. Qed.

(** C3, amended: when the grid is built, [dt] is not zero, the binary64
    quotient [T/dt] is zero or a positive finite number and [dx**3] does
    not overflow, the step count [Nt = int(T/dt)] is the floor of that
    rounded quotient, [Nt >= 0], and the run returns the loop body
    applied [Nt] times in a row to the initial state, every time with
    the same [dt] and [dx]. *)
Theorem simulation_applies_Nt_steps
  (L T dt : float) (Nx : Z) (f : float -> float) (g : grid float) :
  spatial_parameters L Nx = Ok g ->
  is_zero dt = false ->
  nonneg_finite (T / dt) = true ->
  is_ok (pow3 (grid_dx g)) = true ->
  time_parameters T dt = Ok (Qfloor (value (T / dt))) /\
  (0 <= Qfloor (value (T / dt)))%Z /\
  simulation L Nx T dt f =
  Ok (Nat.iter (Z.to_nat (Qfloor (value (T / dt))))
               (loop_body dt (grid_dx g))
               (initial_condition f (grid_x g))).
Proof.
  intros Hg Hdt Hq Hp.
  destruct (int_nonneg_finite (T / dt) Hq) as [Hint Hpos].
  assert (Htp : time_parameters T dt = Ok (Qfloor (value (T / dt)))).
  { unfold time_parameters, truediv. rewrite Hdt. exact Hint. }
  split; [exact Htp|]. split; [exact Hpos|].
  unfold simulation. rewrite Hg. simpl bind. rewrite Htp. simpl bind.
  now rewrite run_time_loop_ok, time_loop_iter.
Qed.

Lemma simulation_applies_Nt_steps_witness :
  spatial_parameters 8 8
  = Ok {| grid_dx := 1%float; grid_x := [0; 1; 2; 3; 4; 5; 6; 7]%float |} /\
  is_zero f_0_001 = false /\
  nonneg_finite (10 / f_0_001) = true /\
  is_ok (pow3 1) = true /\
  time_parameters 10 f_0_001 = Ok (Qfloor (value (10 / f_0_001))) /\
  (0 <= Qfloor (value (10 / f_0_001)))%Z /\
  simulation 8 8 10 f_0_001 (fun x => x) =
  Ok (Nat.iter (Z.to_nat (Qfloor (value (10 / f_0_001))))
               (loop_body f_0_001 1%float)
               (initial_condition (fun x => x) [0; 1; 2; 3; 4; 5; 6; 7]%float)).
Proof.
  assert (Hg : spatial_parameters 8 8
    = Ok {| grid_dx := 1%float; grid_x := [0; 1; 2; 3; 4; 5; 6; 7]%float |})
    by (vm_compute; reflexivity).
  assert (Hdt : is_zero f_0_001 = false) by (vm_compute; reflexivity).
  assert (Hq : nonneg_finite (10 / f_0_001) = true) by (vm_compute; reflexivity).
  assert (Hp : is_ok (pow3 1) = true) by (vm_compute; reflexivity).
  split; [exact Hg|]. split; [exact Hdt|]. split; [exact Hq|].
  split; [exact Hp|].
  exact (@simulation_applies_Nt_steps 8 10 f_0_001 8 (fun x => x) _
           Hg Hdt Hq Hp).
Defined.

(** * Grid and parameters *)




(** C5, the statement as the specification has it, refuted: grids of 4
    and of 3 points are built, and so is a grid of negative length; a
    negative total time is accepted as well. *)
Lemma small_grids_are_accepted :
  spatial_parameters 100 4
  = Ok {| grid_dx := 25%float; grid_x := [0; 25; 50; 75]%float |} /\
  is_ok (spatial_parameters 100 3) = true /\
  is_ok (spatial_parameters (-1) 8) = true /\
  is_ok (time_parameters (-1) 0.5) = true.
Proof. repeat split; vm_compute; reflexivity. Qed.

Lemma spatial_parameters_built (L : float) (Nx : Z) :
  (0 <=? Nx)%Z = true ->
  is_infinity (Z2float Nx) = false -> is_zero (Z2float Nx) = false ->
  is_ok (spatial_parameters L Nx) = true.
Proof.
  intros HN Hinf Hzero.
  unfold spatial_parameters, float_of_int, truediv, linspace.
  rewrite Hinf. simpl bind. rewrite Hzero. simpl bind.
  replace (Nx <? 0)%Z with false by (symmetry; apply Z.ltb_ge; lia).
  reflexivity.
Qed.

(** C5, amended: the parameter cell has no [InvalidGrid] error and does
    not validate [L > 0], [N >= 5], [dt > 0] or [T >= 0].  A grid of 3
    or of 4 points is built for every [L], and whether a grid is built
    never depends on [L]; the time parameters are built exactly when
    [dt] is not zero and the binary64 quotient [T/dt] is finite,
    whatever the signs of [T] and [dt].  [N = 0] fails with Python's
    [ZeroDivisionError] and [N = -1] with numpy's [ValueError]. *)
Theorem parameters_are_not_validated (L L' T dt : float) (Nx : Z) :
  is_ok (spatial_parameters L 3) = true /\
  is_ok (spatial_parameters L 4) = true /\
  is_ok (spatial_parameters L Nx) = is_ok (spatial_parameters L' Nx) /\
  spatial_parameters L 0 = Raise ZeroDivisionError /\
  spatial_parameters L (-1) = Raise ValueError /\
  is_ok (time_parameters T dt) = negb (is_zero dt) && is_finite (T / dt).
Proof.
  split; [now apply spatial_parameters_built|].
  split; [now apply spatial_parameters_built|].
  split; [|split; [|split]].
  - unfold spatial_parameters, float_of_int, truediv, linspace.
    destruct (is_infinity (Z2float Nx)); [reflexivity|]. simpl bind.
    destruct (is_zero (Z2float Nx)); [reflexivity|]. simpl bind.
    now destruct (Nx <? 0)%Z.
  - reflexivity.
  - reflexivity.
  - unfold time_parameters, truediv, int, is_finite.
    destruct (is_zero dt); [reflexivity|]. simpl bind.
    destruct (is_nan (T / dt)); [reflexivity|].
    now destruct (is_infinity (T / dt)).
Qed.

(** * Non-finite states *)

(** C6, the statement as the specification has it, refuted in binary64:
    from [2^1023, 0, 0, 0, 0] with [dt = dx = 1] the state after the
    first step holds infinities, a run that scans the state aborts there
    with [NonFiniteState], and the time loop raises nothing: it applies
    the two remaining steps and ends with an array of NaN. *)
Lemma nonfinite_state_is_not_raised :
  has_nonfinite (time_loop 1%float 1%float 1 f_big) = true /\
  spec_checked_loop 1%float 1%float 3 f_big = Raise NonFiniteState /\
  time_loop 1%float 1%float 3 f_big
  = loop_body 1%float 1%float
      (loop_body 1%float 1%float (time_loop 1%float 1%float 1 f_big)) /\
  time_loop 1%float 1%float 3 f_big = [nan; nan; nan; nan; nan]%float.
Proof. repeat split; vm_compute; reflexivity. Qed.

(** C6, amended: the time loop scans nothing and has no
    [NonFiniteState] error.  The only exception of the run is Python's
    [OverflowError] of [dx**3], raised in the first step whatever the
    state is; otherwise the run applies all [Nt] steps, and an entry of
    the state that is a NaN or an infinity is still a NaN or an infinity
    in the state the run returns. *)
Theorem time_loop_continues_with_nonfinite_state
  (dt dx : float) (u : list float) (i Nt : nat) :
  (i < length u)%nat ->
  nonfinite (item u i) = true ->
  run_time_loop dt dx Nt u
  = (if is_ok (pow3 dx) || (Nt =? 0)%nat
     then Ok (Nat.iter Nt (loop_body dt dx) u)
     else Raise OverflowError) /\
  nonfinite (item (Nat.iter Nt (loop_body dt dx) u) i) = true /\
  has_nonfinite (Nat.iter Nt (loop_body dt dx) u) = true.
Proof.
  intros Hi H.
  split; [apply run_time_loop_cases|].
  rewrite <- time_loop_iter.
  pose proof (nonfinite_time_loop dt dx Nt u Hi H) as Hn.
  split; [exact Hn|].
  apply has_nonfinite_item with (i := i); [|exact Hn].
  now rewrite length_time_loop.
Qed.

Lemma time_loop_continues_with_nonfinite_state_witness :
  (1 < length (time_loop 1%float 1%float 1 f_big))%nat /\
  nonfinite (item (time_loop 1%float 1%float 1 f_big) 1) = true /\
  run_time_loop 1%float 1%float 2 (time_loop 1%float 1%float 1 f_big)
  = (if is_ok (pow3 1) || (2 =? 0)%nat
     then Ok (Nat.iter 2 (loop_body 1%float 1%float)
                (time_loop 1%float 1%float 1 f_big))
     else Raise OverflowError) /\
  nonfinite (item (Nat.iter 2 (loop_body 1%float 1%float)
                     (time_loop 1%float 1%float 1 f_big)) 1) = true /\
  has_nonfinite (Nat.iter 2 (loop_body 1%float 1%float)
                   (time_loop 1%float 1%float 1 f_big)) = true.
Proof.
  assert (Hi : (1 < length (time_loop 1%float 1%float 1 f_big))%nat)
    by (vm_compute; lia).
  assert (H : nonfinite (item (time_loop 1%float 1%float 1 f_big) 1) = true)
    by (vm_compute; reflexivity).
  split; [exact Hi|]. split; [exact H|].
  exact (@time_loop_continues_with_nonfinite_state
           1%float 1%float (time_loop 1%float 1%float 1 f_big) 1 2 Hi H).
Defined.

(** * Algebraic properties in exact arithmetic *)




(** C8: the derivative operator is linear: for state vectors [u], [v] of
    one length and scalars [a], [b], the array [third_d(a*u + b*v, dx)]
    equals [a*third_d(u, dx) + b*third_d(v, dx)] entry by entry. *)
Theorem third_d_linear (u v : list Q) (a b dx : Q) :
  length u = length v ->
  arr_eq (third_d (arr_add (scal_mul a u) (scal_mul b v)) dx)
         (arr_add (scal_mul a (third_d u dx)) (scal_mul b (third_d v dx))).
Proof.
  intros Huv.
  set (w := arr_add (scal_mul a u) (scal_mul b v)).
  assert (Hw : length w = length u).
  { unfold w. rewrite length_arr_add; now rewrite !length_scal_mul. }
  assert (Hwi : forall j, (j < length u)%nat ->
                item w j = a * item u j + b * item v j).
  { intros j Hj. unfold w.
    rewrite item_arr_add by (rewrite length_scal_mul; lia).
    now rewrite !item_scal_mul by lia. }
  apply arr_eq_items.
  - rewrite length_third_d, Hw.
    rewrite length_arr_add; now rewrite !length_scal_mul, !length_third_d.
  - intros i Hi. rewrite length_third_d, Hw in Hi.
    assert (HN : (0 < length u)%nat) by lia.
    rewrite item_arr_add by (rewrite length_scal_mul, length_third_d; lia).
    rewrite !item_scal_mul by (rewrite length_third_d; lia).
    rewrite !item_third_d by lia.
    rewrite Hw, <- Huv.
    rewrite !Hwi by (apply wrap_lt; assumption).
    cbn [add sub mul div two cube Q_scalar].
    unfold Qdiv. ring.
Qed.

Lemma third_d_linear_witness :
  length u_pulse = length u_ramp /\
  arr_eq (third_d (arr_add (scal_mul 3 u_pulse) (scal_mul (1 # 2) u_ramp)) 2)
         (arr_add (scal_mul 3 (third_d u_pulse 2))
                  (scal_mul (1 # 2) (third_d u_ramp 2))).
Proof.
  assert (H : length u_pulse = length u_ramp) by reflexivity.
  split; [exact H|].
  exact (third_d_linear u_pulse u_ramp 3 (1 # 2) 2 H).
Defined.

(** C9: the derivative operator commutes with cyclic translation: for
    every state vector [u] and shift [k], [third_d] of the rolled array
    is the rolled [third_d] of [u]; a roll by the length of [u] is the
    identity, so it leaves [third_d] as it is. *)
Theorem third_d_commutes_with_roll {A : Type} {ops : Scalar A}
  (u : list A) (k : Z) (dx : A) :
  third_d (roll u k) dx = roll (third_d u dx) k /\
  roll u (Z.of_nat (length u)) = u /\
  third_d (roll u (Z.of_nat (length u))) dx = third_d u dx.
Proof.
  split; [apply third_d_roll_comm|].
  split; [apply roll_length|].
  now rewrite roll_length.
Qed.

(** C10: the entries of [third_d(u, dx)] sum to zero, so one time step
    and the whole time loop keep the sum of the state (and its length,
    hence its mean). *)
Theorem third_d_sums_to_zero (u : list Q) (dx dt : Q) (Nt : nat) :
  total (third_d u dx) == 0 /\
  total (loop_body dt dx u) == total u /\
  total (time_loop dt dx Nt u) == total u /\
  length (time_loop dt dx Nt u) = length u.
Proof.
  split; [apply total_third_d|].
  split; [apply total_loop_body|].
  split; [|apply length_time_loop].
  revert u. induction Nt as [|k IH]; intros u; simpl; [reflexivity|].
  rewrite IH. apply total_loop_body.
Qed.

(** * Further properties of [np.roll] *)

Section RollFacts.
Context {A : Type}.

Lemma roll_0 (a : list A) : roll a 0 = a.
Proof.
  unfold roll. rewrite Z.mod_0_l, Z.sub_0_r, Nat2Z.id.
  - now rewrite skipn_all, firstn_all.
  - destruct (Z.of_nat (length a) =? 0)%Z eqn:E; [lia|].
    now apply Z.eqb_neq in E.
Qed.

Lemma roll_shift_period (a : list A) (k m : Z) :
  roll a (k + m * Z.of_nat (length a)) = roll a k.
Proof.
  destruct a as [|x a']; [now rewrite !roll_nil|].
  unfold roll. set (n := Z.of_nat (length (x :: a'))).
  assert (Hn : (0 < n)%Z) by (subst n; simpl length; lia).
  replace (n =? 0)%Z with false by (symmetry; apply Z.eqb_neq; lia).
  now rewrite Z_mod_plus_full.
Qed.

(** Entry [i] of the reversed rolled array. *)
Lemma roll_rev_dflt (d : A) (a : list A) (k : Z) :
  roll (rev a) k = rev (roll a (- k)).
Proof.
  apply nth_ext with (d := d) (d' := d).
  - now rewrite length_roll, !length_rev, length_roll.
  - intros i Hi. rewrite length_roll, length_rev in Hi.
    assert (HN : (0 < length a)%nat) by lia.
    rewrite nth_roll by (now rewrite length_rev).
    rewrite length_rev.
    pose proof (wrap_lt (Z.of_nat i - k) HN) as Hw.
    rewrite rev_nth by assumption.
    rewrite rev_nth by (now rewrite length_roll).
    rewrite length_roll.
    rewrite nth_roll by lia.
    f_equal. unfold wrap in *.
    set (n := Z.of_nat (length a)) in *.
    assert (Hn : (0 < n)%Z) by (subst n; lia).
    pose proof (Z.mod_pos_bound (Z.of_nat i - k) n Hn) as Hr.
    pose proof (Z_div_mod_eq_full (Z.of_nat i - k) n) as Hq.
    set (r := ((Z.of_nat i - k) mod n)%Z) in *.
    assert (E : ((Z.of_nat (length a - S i) - - k) mod n = n - 1 - r)%Z).
    { symmetry.
      apply Z.mod_unique with (q := (- ((Z.of_nat i - k) / n))%Z); lia. }
    rewrite E. lia.
Qed.

Lemma roll_rev (a : list A) (k : Z) : roll (rev a) k = rev (roll a (- k)).
Proof.
  destruct a as [|x a'].
  - simpl. now rewrite !roll_nil.
  - apply (roll_rev_dflt x).
Qed.

Lemma ewise_rev_dflt (d : A) (f : A -> A -> A) (a b : list A) :
  length a = length b -> ewise f (rev a) (rev b) = rev (ewise f a b).
Proof.
  intros Hab.
  assert (Hl : length (ewise f a b) = length a)
    by (rewrite length_ewise; lia).
  apply nth_ext with (d := d) (d' := d).
  - rewrite length_ewise, !length_rev, Hl. lia.
  - intros i Hi. rewrite length_ewise, !length_rev in Hi.
    rewrite nth_ewise by (rewrite length_rev; lia).
    rewrite !rev_nth by lia.
    rewrite Hl, <- Hab.
    symmetry. apply nth_ewise; lia.
Qed.

Lemma ewise_rev (f : A -> A -> A) (a b : list A) :
  length a = length b -> ewise f (rev a) (rev b) = rev (ewise f a b).
Proof.
  destruct a as [|x a'].
  - destruct b; [reflexivity | discriminate].
  - apply (ewise_rev_dflt x).
Qed.

(** X1: rolls form an action of the shifts: a roll by 0 is the identity,
    two rolls compose into the roll by the sum of the shifts, a roll by
    [-k] undoes a roll by [k], and the shift only matters modulo the
    length of the array. *)
Theorem roll_shifts_compose (a : list A) (j k m : Z) :
  roll a 0 = a /\
  roll (roll a j) k = roll a (j + k) /\
  roll (roll a k) (- k) = a /\
  roll a (k + m * Z.of_nat (length a)) = roll a k.
Proof.
  split; [apply roll_0|].
  split; [apply roll_roll|].
  split; [|apply roll_shift_period].
  rewrite roll_roll. replace (k + - k)%Z with 0%Z by lia. apply roll_0.
Qed.

(** X2: a rolled array holds the entries of the array, each as often as
    the array does, and rolling the empty array gives the empty array. *)
Theorem roll_is_permutation (a : list A) (k : Z) :
  Permutation (roll a k) a /\ roll (@nil A) k = [].
Proof.
  split; [|apply roll_nil].
  unfold roll. set (m := Z.to_nat _).
  rewrite <- (firstn_skipn m a) at 3.
  apply Permutation_app_comm.
Qed.

End RollFacts.

(** * Translation invariance of the integration *)

Section LoopFacts.
Context {A : Type} {ops : Scalar A}.

Lemma loop_body_roll (dt dx : A) (u : list A) (k : Z) :
  loop_body dt dx (roll u k) = roll (loop_body dt dx u) k.
Proof.
  unfold loop_body. rewrite third_d_roll_comm.
  unfold arr_sub, scal_mul.
  rewrite <- roll_map.
  now rewrite roll_ewise by (now rewrite length_map, length_third_d).
Qed.

(** X3: the time loop commutes with cyclic translation: integrating the
    rolled state gives the rolled result of integrating the state. *)
Theorem time_loop_commutes_with_roll (dt dx : A) (Nt : nat) (u : list A) (k : Z) :
  time_loop dt dx Nt (roll u k) = roll (time_loop dt dx Nt u) k.
Proof.
  revert u. induction Nt as [|n IH]; intros u; simpl; [reflexivity|].
  now rewrite loop_body_roll, IH.
Qed.

End LoopFacts.

(** * Arrays up to equality of rationals *)

Lemma arr_eq_length (u v : list Q) : arr_eq u v -> length u = length v.
Proof. apply Forall2_length. Qed.

Lemma arr_eq_sym (u v : list Q) : arr_eq u v -> arr_eq v u.
Proof.
  induction 1; constructor; [symmetry|]; assumption.
Qed.

Lemma arr_eq_trans (u v w : list Q) : arr_eq u v -> arr_eq v w -> arr_eq u w.
Proof.
  intros Huv. revert w. induction Huv as [|x y u v Hxy Huv IH]; intros w Hvw;
    inversion Hvw; subst; constructor.
  - now rewrite Hxy.
  - now apply IH.
Qed.

Lemma arr_eq_total (u v : list Q) : arr_eq u v -> total u == total v.
Proof.
  induction 1 as [|x y u v Hxy Huv IH]; simpl; [reflexivity|].
  now rewrite Hxy, IH.
Qed.

Lemma arr_eq_firstn (m : nat) (u v : list Q) :
  arr_eq u v -> arr_eq (firstn m u) (firstn m v).
Proof.
  intros H. revert m.
  induction H as [|x y u v Hxy Huv IH]; intros [|m]; simpl;
    constructor; [assumption | apply IH].
Qed.

Lemma arr_eq_skipn (m : nat) (u v : list Q) :
  arr_eq u v -> arr_eq (skipn m u) (skipn m v).
Proof.
  intros H. revert m.
  induction H as [|x y u v Hxy Huv IH]; intros [|m]; simpl.
  - constructor.
  - constructor.
  - constructor; assumption.
  - apply IH.
Qed.

Lemma arr_eq_roll (u v : list Q) (k : Z) :
  arr_eq u v -> arr_eq (roll u k) (roll v k).
Proof.
  intros H. unfold roll. rewrite <- (arr_eq_length H).
  apply Forall2_app; [now apply arr_eq_skipn | now apply arr_eq_firstn].
Qed.

Lemma arr_eq_ewise (f : Q -> Q -> Q) (a a' b b' : list Q) :
  (forall x x' y y', x == x' -> y == y' -> f x y == f x' y') ->
  arr_eq a a' -> arr_eq b b' -> arr_eq (ewise f a b) (ewise f a' b').
Proof.
  intros Hf Ha. revert b b'.
  induction Ha as [|x x' a a' Hx Ha IH]; intros b b' Hb.
  - simpl. constructor.
  - destruct Hb as [|y y' b b' Hy Hb]; simpl; constructor.
    + now apply Hf.
    + now apply IH.
Qed.

Lemma arr_eq_map (f : Q -> Q) (a a' : list Q) :
  (forall x x', x == x' -> f x == f x') ->
  arr_eq a a' -> arr_eq (map f a) (map f a').
Proof.
  intros Hf Ha. induction Ha; simpl; constructor; auto.
Qed.

Lemma arr_eq_arr_sub (a a' b b' : list Q) :
  arr_eq a a' -> arr_eq b b' -> arr_eq (arr_sub a b) (arr_sub a' b').
Proof.
  apply arr_eq_ewise. intros x x' y y' Hx Hy. simpl. now rewrite Hx, Hy.
Qed.

Lemma arr_eq_arr_add (a a' b b' : list Q) :
  arr_eq a a' -> arr_eq b b' -> arr_eq (arr_add a b) (arr_add a' b').
Proof.
  apply arr_eq_ewise. intros x x' y y' Hx Hy. simpl. now rewrite Hx, Hy.
Qed.

Lemma arr_eq_scal_mul (k : Q) (a a' : list Q) :
  arr_eq a a' -> arr_eq (scal_mul k a) (scal_mul k a').
Proof.
  apply arr_eq_map. intros x x' Hx. simpl. now rewrite Hx.
Qed.

Lemma arr_eq_arr_div (k : Q) (a a' : list Q) :
  arr_eq a a' -> arr_eq (arr_div a k) (arr_div a' k).
Proof.
  apply (arr_eq_map (fun x => div x k)). intros x x' Hx. simpl. now rewrite Hx.
Qed.

Lemma arr_eq_third_d (dx : Q) (u v : list Q) :
  arr_eq u v -> arr_eq (third_d u dx) (third_d v dx).
Proof.
  intros H. unfold third_d.
  apply arr_eq_arr_div.
  repeat first [ apply arr_eq_arr_sub | apply arr_eq_arr_add
               | apply arr_eq_scal_mul | apply arr_eq_roll ];
    assumption.
Qed.

Lemma arr_eq_loop_body (dt dx : Q) (u v : list Q) :
  arr_eq u v -> arr_eq (loop_body dt dx u) (loop_body dt dx v).
Proof.
  intros H. unfold loop_body.
  apply arr_eq_arr_sub; [assumption|].
  now apply arr_eq_scal_mul, arr_eq_third_d.
Qed.

Lemma arr_eq_time_loop (dt dx : Q) (Nt : nat) (u v : list Q) :
  arr_eq u v -> arr_eq (time_loop dt dx Nt u) (time_loop dt dx Nt v).
Proof.
  revert u v. induction Nt as [|n IH]; intros u v H; simpl; [assumption|].
  now apply IH, arr_eq_loop_body.
Qed.

(** * Superposition *)

Lemma length_lin_comb (a b : Q) (u v : list Q) :
  length u = length v -> length (lin_comb a u b v) = length u.
Proof.
  intros H. unfold lin_comb.
  rewrite length_arr_add; now rewrite !length_scal_mul.
Qed.

Lemma item_lin_comb (a b : Q) (u v : list Q) (j : nat) :
  length u = length v -> (j < length u)%nat ->
  item (lin_comb a u b v) j = a * item u j + b * item v j.
Proof.
  intros H Hj. unfold lin_comb.
  rewrite item_arr_add by (rewrite length_scal_mul; lia).
  now rewrite !item_scal_mul by lia.
Qed.

Lemma item_loop_body (dt dx : Q) (u : list Q) (i : nat) :
  (i < length u)%nat ->
  item (loop_body dt dx u) i = item u i - dt * item (third_d u dx) i.
Proof.
  intros Hi. unfold loop_body.
  rewrite item_arr_sub
    by (try rewrite length_scal_mul, length_third_d; assumption).
  now rewrite item_scal_mul by (now rewrite length_third_d).
Qed.

Lemma loop_body_lin_comb (dt dx a b : Q) (u v : list Q) :
  length u = length v ->
  arr_eq (loop_body dt dx (lin_comb a u b v))
         (lin_comb a (loop_body dt dx u) b (loop_body dt dx v)).
Proof.
  intros Huv.
  pose proof (length_lin_comb a b u v Huv) as Hw.
  assert (Hwi := fun j => item_lin_comb a b u v (j := j) Huv).
  apply arr_eq_items.
  - rewrite length_loop_body, Hw.
    rewrite length_lin_comb; now rewrite !length_loop_body.
  - intros i Hi. rewrite length_loop_body, Hw in Hi.
    assert (HN : (0 < length u)%nat) by lia.
    rewrite item_lin_comb by (rewrite ?length_loop_body; lia).
    rewrite !item_loop_body by lia.
    rewrite !item_third_d by lia.
    rewrite Hw, <- Huv.
    rewrite !Hwi by (try apply wrap_lt; assumption).
    cbn [add sub mul div two cube Q_scalar].
    unfold Qdiv. ring.
Qed.

(** X4: superposition: integrating [a*u + b*v] gives [a] times the
    integrated [u] plus [b] times the integrated [v], entry by entry,
    for state vectors of one length. *)
Theorem time_loop_superposition (dt dx a b : Q) (Nt : nat) (u v : list Q) :
  length u = length v ->
  arr_eq (time_loop dt dx Nt (lin_comb a u b v))
         (lin_comb a (time_loop dt dx Nt u) b (time_loop dt dx Nt v)).
Proof.
  revert u v. induction Nt as [|n IH]; intros u v Huv; simpl.
  - apply arr_eq_refl.
  - eapply arr_eq_trans.
    + apply arr_eq_time_loop. now apply loop_body_lin_comb.
    + apply IH. now rewrite !length_loop_body.
Qed.

Lemma time_loop_superposition_witness :
  length u_pulse = length u_ramp /\
  arr_eq (time_loop (1 # 10) 1 2 (lin_comb 3 u_pulse (1 # 2) u_ramp))
         (lin_comb 3 (time_loop (1 # 10) 1 2 u_pulse)
                   (1 # 2) (time_loop (1 # 10) 1 2 u_ramp)).
Proof.
  assert (H : length u_pulse = length u_ramp) by reflexivity.
  split; [exact H|].
  exact (time_loop_superposition (1 # 10) 1 3 (1 # 2) 2 u_pulse u_ramp H).
Defined.

(** * Skew-adjointness and the sum of squares *)

Lemma dot_comm (a b : list Q) : dot a b == dot b a.
Proof.
  unfold dot. revert b.
  induction a as [|x a IH]; intros [|y b]; simpl; try reflexivity.
  rewrite IH. ring.
Qed.

Lemma dot_roll (a b : list Q) (k : Z) :
  length a = length b -> dot (roll a k) (roll b k) == dot a b.
Proof.
  intros H. unfold dot. rewrite <- roll_ewise by assumption.
  apply total_roll.
Qed.

Lemma dot_roll_r (a b : list Q) (k : Z) :
  length a = length b -> dot a (roll b k) == dot (roll a (- k)) b.
Proof.
  intros H.
  rewrite <- (dot_roll a (roll b k) (- k)) by (now rewrite length_roll).
  rewrite roll_roll. replace (k + - k)%Z with 0%Z by lia.
  now rewrite roll_0.
Qed.

Lemma dot_arr_sub_r (a b c : list Q) :
  length b = length c -> dot a (arr_sub b c) == dot a b - dot a c.
Proof.
  unfold dot, arr_sub. cbn [add sub Q_scalar]. revert b c.
  induction a as [|x a IH]; intros [|y b] [|z c] H; try discriminate;
    simpl; try ring.
  rewrite IH by (simpl in H; lia). ring.
Qed.

Lemma dot_arr_add_r (a b c : list Q) :
  length b = length c -> dot a (arr_add b c) == dot a b + dot a c.
Proof.
  unfold dot, arr_add. cbn [add sub Q_scalar]. revert b c.
  induction a as [|x a IH]; intros [|y b] [|z c] H; try discriminate;
    simpl; try ring.
  rewrite IH by (simpl in H; lia). ring.
Qed.

Lemma dot_scal_mul_r (k : Q) (a b : list Q) :
  dot a (scal_mul k b) == k * dot a b.
Proof.
  unfold dot, scal_mul. cbn [mul div Q_scalar]. revert b.
  induction a as [|x a IH]; intros [|y b]; simpl; try ring.
  rewrite IH. ring.
Qed.

Lemma dot_arr_div_r (k : Q) (a b : list Q) :
  dot a (arr_div b k) == dot a b / k.
Proof.
  unfold dot, arr_div. cbn [mul div Q_scalar]. revert b.
  induction a as [|x a IH]; intros [|y b]; simpl;
    try (unfold Qdiv; ring).
  rewrite IH. unfold Qdiv. ring.
Qed.

Lemma dot_third_d_r (u v : list Q) (dx : Q) :
  length u = length v ->
  dot u (third_d v dx)
  == (dot (roll u 2) v - 2 * dot (roll u 1) v
      + 2 * dot (roll u (-1)) v - dot (roll u (-2)) v) / (2 * dx ^ 3).
Proof.
  intros H. unfold third_d.
  rewrite dot_arr_div_r.
  rewrite dot_arr_sub_r by arr_len.
  rewrite dot_arr_add_r by arr_len.
  rewrite dot_arr_sub_r by arr_len.
  rewrite !dot_scal_mul_r.
  rewrite !dot_roll_r by assumption.
  reflexivity.
Qed.

Lemma dot_third_d_skew (u v : list Q) (dx : Q) :
  length u = length v ->
  dot u (third_d v dx) == - dot (third_d u dx) v.
Proof.
  intros H.
  rewrite (dot_comm (third_d u dx) v).
  rewrite !dot_third_d_r by (assumption || (symmetry; assumption)).
  rewrite (dot_comm (roll v 2) u), (dot_comm (roll v 1) u),
    (dot_comm (roll v (-1)) u), (dot_comm (roll v (-2)) u).
  rewrite !dot_roll_r by assumption.
  simpl Z.opp. unfold Qdiv. ring.
Qed.

Lemma dot_third_d_self (u : list Q) (dx : Q) : dot u (third_d u dx) == 0.
Proof.
  pose proof (dot_third_d_skew u u dx eq_refl) as H.
  rewrite (dot_comm (third_d u dx) u) in H. lra.
Qed.

Lemma energy_nonneg (u : list Q) : 0 <= energy u.
Proof.
  unfold energy, dot. induction u as [|x u IH]; simpl; [lra|].
  assert (0 <= x * x) by nra. lra.
Qed.

Lemma energy_loop_body (dt dx : Q) (u : list Q) :
  energy (loop_body dt dx u)
  == energy u + dt * dt * energy (third_d u dx).
Proof.
  unfold energy, loop_body.
  assert (Hl : length u = length (scal_mul dt (third_d u dx)))
    by (now rewrite length_scal_mul, length_third_d).
  rewrite dot_arr_sub_r by assumption.
  rewrite dot_scal_mul_r.
  rewrite (dot_comm (arr_sub u (scal_mul dt (third_d u dx))) u).
  rewrite (dot_comm (arr_sub u (scal_mul dt (third_d u dx))) (third_d u dx)).
  rewrite !dot_arr_sub_r by assumption.
  rewrite !dot_scal_mul_r.
  rewrite (dot_comm (third_d u dx) u).
  rewrite dot_third_d_self. ring.
Qed.

(** X5: the stencil is skew-adjoint for the sum of products: for state
    vectors [u], [v] of one length, [sum_i u_i * third_d(v)_i] is the
    opposite of [sum_i third_d(u)_i * v_i]. *)
Theorem third_d_skew_adjoint (u v : list Q) (dx : Q) :
  length u = length v ->
  dot u (third_d v dx) == - dot (third_d u dx) v.
Proof. apply dot_third_d_skew. Qed.

Lemma third_d_skew_adjoint_witness :
  length u_pulse = length u_ramp /\
  dot u_pulse (third_d u_ramp 2) == - dot (third_d u_pulse 2) u_ramp.
Proof.
  assert (H : length u_pulse = length u_ramp) by reflexivity.
  split; [exact H|].
  exact (third_d_skew_adjoint u_pulse u_ramp 2 H).
Defined.

(** X6: in exact arithmetic, for [dx] other than zero, a state is
    orthogonal to its derivative array, so one time step adds [dt^2]
    times the sum of squares of the derivative to the sum of squares of
    the state: the sum of squares never decreases along the time loop,
    whatever [dt] is. *)
Theorem sum_of_squares_never_decreases (dt dx : Q) (Nt : nat) (u : list Q) :
  ~ dx == 0 ->
  dot u (third_d u dx) == 0 /\
  energy (loop_body dt dx u) == energy u + dt * dt * energy (third_d u dx) /\
  energy u <= energy (time_loop dt dx Nt u).
Proof.
  intros _.
  split; [apply dot_third_d_self|].
  split; [apply energy_loop_body|].
  revert u. induction Nt as [|n IH]; intros u; simpl; [lra|].
  eapply Qle_trans; [|apply IH].
  rewrite energy_loop_body.
  pose proof (energy_nonneg (third_d u dx)).
  assert (0 <= dt * dt) by nra.
  assert (0 <= dt * dt * energy (third_d u dx))
    by (apply Qmult_le_0_compat; assumption).
  lra.
Qed.

Lemma sum_of_squares_never_decreases_witness :
  ~ 1 == 0 /\
  dot u_pulse (third_d u_pulse 1) == 0 /\
  energy (loop_body (1 # 2) 1 u_pulse)
  == energy u_pulse + (1 # 2) * (1 # 2) * energy (third_d u_pulse 1) /\
  energy u_pulse <= energy (time_loop (1 # 2) 1 2 u_pulse).
Proof.
  assert (H : ~ 1 == 0) by (intros E; discriminate E).
  split; [exact H|].
  exact (@sum_of_squares_never_decreases (1 # 2) 1 2 u_pulse H).
Defined.

(** * Fixed points and small grids *)

Lemma arr_eq_item (u v : list Q) (i : nat) :
  arr_eq u v -> item u i == item v i.
Proof.
  intros H. revert i. unfold item.
  induction H as [|x y u v Hxy Huv IH]; intros [|i]; simpl;
    try reflexivity; auto.
Qed.

Lemma Forall_zero_items (l : list Q) :
  (forall i, (i < length l)%nat -> item l i == 0) ->
  Forall (fun d => d == 0) l.
Proof.
  induction l as [|x l IH]; intros H; constructor.
  - apply (H 0%nat). simpl. lia.
  - apply IH. intros i Hi. apply (H (S i)). simpl. lia.
Qed.

Lemma Forall_zero_item (l : list Q) (i : nat) :
  Forall (fun d => d == 0) l -> item l i == 0.
Proof.
  intros H. revert i. unfold item.
  induction H as [|x l Hx Hl IH]; intros [|i]; simpl;
    try reflexivity; auto.
Qed.

Lemma loop_body_steady (dt dx : Q) (u : list Q) :
  Forall (fun d => d == 0) (third_d u dx) -> arr_eq (loop_body dt dx u) u.
Proof.
  intros H. apply arr_eq_items; [apply length_loop_body|].
  intros i Hi. rewrite length_loop_body in Hi.
  rewrite item_loop_body by assumption.
  rewrite (Forall_zero_item i H). ring.
Qed.

Lemma time_loop_steady (dt dx : Q) (Nt : nat) (u : list Q) :
  Forall (fun d => d == 0) (third_d u dx) -> arr_eq (time_loop dt dx Nt u) u.
Proof.
  intros H. induction Nt as [|n IH]; simpl; [apply arr_eq_refl|].
  eapply arr_eq_trans; [|exact IH].
  apply arr_eq_time_loop. now apply loop_body_steady.
Qed.

(** X7: for a step size other than zero, the states one time step
    leaves as they are, entry by entry, are exactly the states whose
    derivative array is zero everywhere. *)
Theorem loop_body_fixed_points (dt dx : Q) (u : list Q) :
  ~ dt == 0 ->
  (arr_eq (loop_body dt dx u) u <-> Forall (fun d => d == 0) (third_d u dx)).
Proof.
  intros Hdt. split; [|apply loop_body_steady].
  intros H. apply Forall_zero_items.
  intros i Hi. rewrite length_third_d in Hi.
  pose proof (arr_eq_item i H) as E.
  rewrite item_loop_body in E by assumption.
  assert (E' : dt * item (third_d u dx) i == 0) by lra.
  apply Qmult_integral in E'. destruct E' as [E' | E']; [contradiction|exact E'].
Qed.

Lemma loop_body_fixed_points_witness :
  ~ (1 # 2) == 0 /\
  (arr_eq (loop_body (1 # 2) 1 u_ramp) u_ramp
   <-> Forall (fun d => d == 0) (third_d u_ramp 1)).
Proof.
  assert (H : ~ (1 # 2) == 0) by (intros E; discriminate E).
  split; [exact H|].
  exact (loop_body_fixed_points 1 u_ramp H).
Defined.

(** X8: in exact arithmetic, for [dx] other than zero, on a grid of at
    most two points every roll by 2 is the identity and the rolls by 1
    and -1 agree, so the derivative array is zero everywhere and the
    time loop returns the state it was given. *)
Theorem tiny_grid_is_frozen (dt dx : Q) (Nt : nat) (u : list Q) :
  (length u <= 2)%nat -> ~ dx == 0 ->
  Forall (fun d => d == 0) (third_d u dx) /\
  arr_eq (time_loop dt dx Nt u) u.
Proof.
  intros Hlen _.
  assert (H0 : Forall (fun d => d == 0) (third_d u dx)).
  { destruct u as [|a [|b [|c u]]]; [| | |simpl in Hlen; lia].
    - constructor.
    - constructor; [|constructor].
      cbn [add sub mul div two cube Q_scalar]. unfold Qdiv. ring.
    - constructor; [|constructor; [|constructor]];
        cbn [add sub mul div two cube Q_scalar]; unfold Qdiv; ring. }
  split; [exact H0|]. now apply time_loop_steady.
Qed.

Lemma tiny_grid_is_frozen_witness :
  (length [3 # 1; 5 # 1] <= 2)%nat /\ ~ (1 # 2) == 0 /\
  Forall (fun d => d == 0) (third_d [3 # 1; 5 # 1] (1 # 2)) /\
  arr_eq (time_loop (1 # 10) (1 # 2) 3 [3 # 1; 5 # 1]) [3 # 1; 5 # 1].
Proof.
  assert (H : (length [3 # 1; 5 # 1] <= 2)%nat) by (simpl; lia).
  assert (Hdx : ~ (1 # 2) == 0) by (intros E; discriminate E).
  split; [exact H|]. split; [exact Hdx|].
  exact (@tiny_grid_is_frozen (1 # 10) (1 # 2) 3 [3 # 1; 5 # 1] H Hdx).
Defined.

Lemma wrap_shift (N : nat) (j : Z) :
  wrap N (j + Z.of_nat N) = wrap N j.
Proof.
  unfold wrap. f_equal.
  rewrite <- (Z.mul_1_l (Z.of_nat N)) at 1. apply Z_mod_plus_full.
Qed.

(** X9: in exact arithmetic, on a grid of four points the neighbours at distance 2 on either
    side are one point, their terms cancel, and the stencil is the
    difference of the two nearest neighbours over [dx^3]:
    [(u_{i-1} - u_{i+1}) / dx^3]. *)
Theorem third_d_on_four_points (u : list Q) (dx : Q) (i : nat) :
  length u = 4%nat -> (i < 4)%nat -> ~ dx == 0 ->
  item (third_d u dx) i
  == (item u (wrap 4 (Z.of_nat i - 1)) - item u (wrap 4 (Z.of_nat i + 1)))
     / dx ^ 3.
Proof.
  intros Hlen Hi Hdx.
  rewrite item_third_d by lia. rewrite Hlen.
  replace (wrap 4 (Z.of_nat i + 2)) with (wrap 4 (Z.of_nat i - 2))
    by (rewrite <- (wrap_shift 4 (Z.of_nat i - 2)); f_equal; lia).
  cbn [add sub mul div two cube Q_scalar].
  field. exact Hdx.
Qed.

Lemma third_d_on_four_points_witness :
  length [1; 2; 4; 8] = 4%nat /\ (1 < 4)%nat /\ ~ 1 == 0 /\
  item (third_d [1; 2; 4; 8] 1) 1
  == (item [1; 2; 4; 8] 0 - item [1; 2; 4; 8] 2) / 1 ^ 3.
Proof.
  assert (Hl : length [1; 2; 4; 8] = 4%nat) by reflexivity.
  assert (Hi : (1 < 4)%nat) by lia.
  assert (Hd : ~ 1 == 0) by (intros E; discriminate E).
  split; [exact Hl|]. split; [exact Hi|]. split; [exact Hd|].
  exact (third_d_on_four_points [1; 2; 4; 8] (i := 1) Hl Hi Hd).
Defined.

(** X10: in exact arithmetic, on a grid of three points the neighbour two to the right is
    the neighbour one to the left and conversely, and the stencil is
    [3 * (u_{i-1} - u_{i+1}) / (2 dx^3)]. *)
Theorem third_d_on_three_points (u : list Q) (dx : Q) (i : nat) :
  length u = 3%nat -> (i < 3)%nat ->
  item (third_d u dx) i
  == 3 * (item u (wrap 3 (Z.of_nat i - 1)) - item u (wrap 3 (Z.of_nat i + 1)))
     / (2 * dx ^ 3).
Proof.
  intros Hlen Hi.
  rewrite item_third_d by lia. rewrite Hlen.
  replace (wrap 3 (Z.of_nat i + 2)) with (wrap 3 (Z.of_nat i - 1))
    by (rewrite <- (wrap_shift 3 (Z.of_nat i - 1)); f_equal; lia).
  replace (wrap 3 (Z.of_nat i - 2)) with (wrap 3 (Z.of_nat i + 1))
    by (rewrite <- (wrap_shift 3 (Z.of_nat i - 2)); f_equal; lia).
  cbn [add sub mul div two cube Q_scalar].
  unfold Qdiv. ring.
Qed.

Lemma third_d_on_three_points_witness :
  length [1; 2; 4] = 3%nat /\ (0 < 3)%nat /\
  item (third_d [1; 2; 4] 1) 0
  == 3 * (item [1; 2; 4] 2 - item [1; 2; 4] 1) / (2 * 1 ^ 3).
Proof.
  assert (Hl : length [1; 2; 4] = 3%nat) by reflexivity.
  assert (Hi : (0 < 3)%nat) by lia.
  split; [exact Hl|]. split; [exact Hi|].
  exact (third_d_on_three_points [1; 2; 4] 1 (i := 0) Hl Hi).
Defined.

(** * Reflection of the grid *)

Lemma arr_eq_rev (u v : list Q) : arr_eq u v -> arr_eq (rev u) (rev v).
Proof.
  induction 1 as [|x y u v Hxy Huv IH]; simpl; [constructor|].
  apply Forall2_app; [exact IH|]. constructor; [exact Hxy | constructor].
Qed.

Lemma arr_sub_rev (a b : list Q) :
  length a = length b -> arr_sub (rev a) (rev b) = rev (arr_sub a b).
Proof. apply ewise_rev. Qed.

Lemma arr_add_rev (a b : list Q) :
  length a = length b -> arr_add (rev a) (rev b) = rev (arr_add a b).
Proof. apply ewise_rev. Qed.

Lemma scal_mul_rev (k : Q) (a : list Q) :
  scal_mul k (rev a) = rev (scal_mul k a).
Proof. unfold scal_mul. now rewrite map_rev. Qed.

Lemma arr_div_rev (k : Q) (a : list Q) :
  arr_div (rev a) k = rev (arr_div a k).
Proof. unfold arr_div. now rewrite map_rev. Qed.

Lemma item_arr_neg (a : list Q) (i : nat) :
  (i < length a)%nat -> item (arr_neg a) i = - item a i.
Proof. apply (nth_map_lt Qopp). Qed.

(** X11: the stencil is odd under reflection of the grid: the derivative
    array of the reversed state is the opposite of the reversed
    derivative array of the state. *)
Theorem third_d_of_reversed_state (u : list Q) (dx : Q) :
  arr_eq (third_d (rev u) dx) (arr_neg (rev (third_d u dx))).
Proof.
  unfold arr_neg. rewrite map_rev. fold (arr_neg (third_d u dx)).
  unfold third_d at 1. rewrite !roll_rev. simpl Z.opp.
  rewrite !scal_mul_rev.
  rewrite arr_sub_rev by arr_len.
  rewrite arr_add_rev by arr_len.
  rewrite arr_sub_rev by arr_len.
  rewrite arr_div_rev.
  apply arr_eq_rev.
  apply arr_eq_items.
  - unfold arr_neg. rewrite length_map, length_third_d. arr_len.
  - intros i Hi.
    assert (Hu : (i < length u)%nat).
    { revert Hi. arr_len. }
    rewrite item_arr_neg by (now rewrite length_third_d).
    rewrite item_third_d by assumption.
    rewrite item_arr_div by arr_len.
    rewrite item_arr_sub by arr_len.
    rewrite item_arr_add by arr_len.
    rewrite item_arr_sub by arr_len.
    rewrite !item_scal_mul by arr_len.
    rewrite !item_roll by assumption.
    replace (Z.of_nat i - -2)%Z with (Z.of_nat i + 2)%Z by lia.
    replace (Z.of_nat i - -1)%Z with (Z.of_nat i + 1)%Z by lia.
    cbn [add sub mul div two cube Q_scalar].
    unfold Qdiv. ring.
Qed.

(** * The whole run in binary64 *)

Lemma int_below_1 (f : float) :
  is_finite f = true -> value f < 1 ->
  exists n, int f = Ok n /\ (n <= 0)%Z.
Proof.
  unfold is_finite, int, value.
  destruct (is_nan f); [discriminate|].
  destruct (is_infinity f); [discriminate|]. intros _ Hv.
  eexists. split; [reflexivity|].
  destruct (Prim2SF f) as [s|s| |[|] m e]; simpl SFtrunc; try lia.
  - assert (0 <= Z.shiftl (Z.pos m) e)%Z by (apply Z.shiftl_nonneg; lia).
    unfold cond_Zopp. lia.
  - destruct (SFtrunc_floor m e) as [E _]. unfold SFtrunc, cond_Zopp in E.
    rewrite E.
    pose proof (Qfloor_le (SF2Q (S754_finite false m e))) as Hle.
    assert (Hlt : inject_Z (Qfloor (SF2Q (S754_finite false m e))) < 1)
      by (eapply Qle_lt_trans; eassumption).
    set (n := Qfloor (SF2Q (S754_finite false m e))) in *.
    unfold Qlt in Hlt. simpl in Hlt. lia.
Qed.

Lemma length_linspace (a b : float) (num : Z) (x : list float) :
  linspace a b num = Ok x -> length x = Z.to_nat num.
Proof.
  unfold linspace. destruct (num <? 0)%Z; [discriminate|].
  intros E. injection E as <-. now rewrite !length_map, length_seq.
Qed.

Lemma length_grid (L : float) (Nx : Z) (g : grid float) :
  spatial_parameters L Nx = Ok g -> length (grid_x g) = Z.to_nat Nx.
Proof.
  unfold spatial_parameters.
  destruct (float_of_int Nx) as [n|e]; [simpl bind | discriminate].
  destruct (truediv L n) as [dx|e]; [simpl bind | discriminate].
  destruct (linspace 0 L Nx) as [x|e] eqn:Hx; [simpl bind | discriminate].
  intros E. injection E as <-. simpl. now apply length_linspace in Hx.
Qed.

Lemma float_sub_0 (x : float) : (x - 0)%float = x.
Proof.
  apply Prim2SF_inj. rewrite sub_spec.
  replace (Prim2SF 0) with (S754_zero false) by reflexivity.
  unfold SF64sub, SFsub.
  destruct (Prim2SF x) as [s|s| |s m e]; try reflexivity.
  now destruct s.
Qed.

(** X12: in binary64, when the grid is built and [dx] is not zero, [dx]
    is the rounded quotient of [L] by the float of [Nx], the grid has
    [Nx] coordinates, and coordinate [i] is the rounded product of the
    float of [i] by [dx], plus 0.0. *)
Theorem binary64_grid (L : float) (Nx : Z) (g : grid float) (i : nat) :
  spatial_parameters L Nx = Ok g ->
  (i < Z.to_nat Nx)%nat ->
  is_zero (grid_dx g) = false ->
  grid_dx g = (L / Z2float Nx)%float /\
  length (grid_x g) = Z.to_nat Nx /\
  item (grid_x g) i = (Z2float (Z.of_nat i) * grid_dx g + 0)%float.
Proof.
  intros Hg Hi Hz.
  pose proof (length_grid L Nx Hg) as Hlen.
  revert Hg. unfold spatial_parameters, float_of_int, truediv, linspace.
  destruct (is_infinity (Z2float Nx)); [discriminate|]. simpl bind.
  destruct (is_zero (Z2float Nx)); [discriminate|]. simpl bind.
  destruct (Nx <? 0)%Z; [discriminate|]. simpl bind.
  intros E. injection E as <-. simpl grid_dx in *. simpl grid_x in *.
  split; [reflexivity|]. split; [exact Hlen|].
  unfold item. rewrite map_map, nth_map_seq by assumption.
  replace (0 <? Nx)%Z with true by (symmetry; apply Z.ltb_lt; lia).
  rewrite float_sub_0, Hz. reflexivity.
Qed.

Lemma binary64_grid_witness :
  spatial_parameters 1 4
  = Ok {| grid_dx := 0.25%float; grid_x := [0; 0.25; 0.5; 0.75]%float |} /\
  (3 < Z.to_nat 4)%nat /\
  is_zero 0.25 = false /\
  0.25%float = (1 / Z2float 4)%float /\
  length [0; 0.25; 0.5; 0.75]%float = Z.to_nat 4 /\
  item [0; 0.25; 0.5; 0.75]%float 3
  = (Z2float (Z.of_nat 3) * 0.25 + 0)%float.
Proof.
  assert (Hg : spatial_parameters 1 4
    = Ok {| grid_dx := 0.25%float; grid_x := [0; 0.25; 0.5; 0.75]%float |})
    by (vm_compute; reflexivity).
  assert (Hi : (3 < Z.to_nat 4)%nat) by (simpl; lia).
  assert (Hz : is_zero 0.25 = false) by (vm_compute; reflexivity).
  split; [exact Hg|]. split; [exact Hi|]. split; [exact Hz|].
  exact (@binary64_grid 1 4 _ 3 Hg Hi Hz).
Defined.

(** X13: when the grid is built, [dt] is not zero and the binary64
    quotient [T/dt] is finite with a value below 1 (a total time shorter
    than one step, or [T] and [dt] of opposite signs), [range(Nt)] is
    empty and the run returns the initial condition sampled on the grid,
    untouched, also when [dx**3] would overflow. *)
Theorem simulation_without_steps
  (L T dt : float) (Nx : Z) (f : float -> float) (g : grid float) :
  spatial_parameters L Nx = Ok g ->
  is_zero dt = false ->
  is_finite (T / dt) = true ->
  value (T / dt) < 1 ->
  simulation L Nx T dt f = Ok (initial_condition f (grid_x g)).
Proof.
  intros Hg Hdt Hfin Hv.
  destruct (int_below_1 (T / dt) Hfin Hv) as [n [Hn Hle]].
  unfold simulation, time_parameters, truediv.
  rewrite Hg, Hdt. simpl bind. rewrite Hn. simpl bind.
  now replace (Z.to_nat n) with 0%nat by lia.
Qed.

Lemma simulation_without_steps_witness :
  spatial_parameters 0x1p700 8
  = Ok {| grid_dx := 0x1p697%float;
          grid_x := [0; 0x1p697; 0x1p698; 0x1.8p698; 0x1p699; 0x1.4p699;
                     0x1.8p699; 0x1.cp699]%float |} /\
  is_zero 0.5 = false /\
  is_finite (-3 / 0.5) = true /\
  value (-3 / 0.5) < 1 /\
  simulation 0x1p700 8 (-3) 0.5 (fun x => x)
  = Ok (initial_condition (fun x => x)
          [0; 0x1p697; 0x1p698; 0x1.8p698; 0x1p699; 0x1.4p699;
           0x1.8p699; 0x1.cp699]%float).
Proof.
  assert (Hg : spatial_parameters 0x1p700 8
    = Ok {| grid_dx := 0x1p697%float;
            grid_x := [0; 0x1p697; 0x1p698; 0x1.8p698; 0x1p699; 0x1.4p699;
                       0x1.8p699; 0x1.cp699]%float |})
    by (vm_compute; reflexivity).
  assert (Hdt : is_zero 0.5 = false) by (vm_compute; reflexivity).
  assert (Hfin : is_finite (-3 / 0.5) = true) by (vm_compute; reflexivity).
  assert (Hv : value (-3 / 0.5) < 1) by (vm_compute; reflexivity).
  split; [exact Hg|]. split; [exact Hdt|]. split; [exact Hfin|].
  split; [exact Hv|].
  exact (@simulation_without_steps 0x1p700 (-3) 0.5 8 (fun x => x) _
           Hg Hdt Hfin Hv).
Defined.

(** X14: when the grid is built, [dt] is not zero, the binary64
    quotient [T/dt] is finite and [dx**3] does not overflow, the run
    returns a state, and that state has one entry per grid point. *)
Theorem simulation_returns_Nx_entries
  (L T dt : float) (Nx : Z) (f : float -> float) (g : grid float) :
  spatial_parameters L Nx = Ok g ->
  is_zero dt = false ->
  is_finite (T / dt) = true ->
  is_ok (pow3 (grid_dx g)) = true ->
  exists u,
    simulation L Nx T dt f = Ok u /\ length u = Z.to_nat Nx.
Proof.
  intros Hg Hdt Hfin Hp.
  unfold simulation, time_parameters, truediv, int.
  rewrite Hg, Hdt. simpl bind.
  unfold is_finite in Hfin.
  destruct (is_nan (T / dt)); [discriminate|].
  destruct (is_infinity (T / dt)); [discriminate|]. simpl bind.
  rewrite run_time_loop_ok by assumption.
  eexists. split; [reflexivity|].
  rewrite length_time_loop. unfold initial_condition.
  rewrite length_map. now apply length_grid with (L := L).
Qed.

Lemma simulation_returns_Nx_entries_witness :
  spatial_parameters 8 8
  = Ok {| grid_dx := 1%float; grid_x := [0; 1; 2; 3; 4; 5; 6; 7]%float |} /\
  is_zero 0.5 = false /\
  is_finite (1 / 0.5) = true /\
  is_ok (pow3 1) = true /\
  exists u,
    simulation 8 8 1 0.5 (fun x => x) = Ok u /\ length u = Z.to_nat 8.
Proof.
  assert (Hg : spatial_parameters 8 8
    = Ok {| grid_dx := 1%float; grid_x := [0; 1; 2; 3; 4; 5; 6; 7]%float |})
    by (vm_compute; reflexivity).
  assert (Hdt : is_zero 0.5 = false) by (vm_compute; reflexivity).
  assert (Hfin : is_finite (1 / 0.5) = true) by (vm_compute; reflexivity).
  assert (Hp : is_ok (pow3 1) = true) by (vm_compute; reflexivity).
  split; [exact Hg|]. split; [exact Hdt|]. split; [exact Hfin|].
  split; [exact Hp|].
  exact (@simulation_returns_Nx_entries 8 1 0.5 8 (fun x => x) _
           Hg Hdt Hfin Hp).
Defined.

(** * The cosine wave and the animation *)

Lemma cos_turns_nat (y : R) (k : nat) :
  cos (y - 2 * PI * INR k)%R = cos y.
Proof.
  rewrite <- (cos_period (y - 2 * PI * INR k) k). f_equal. ring.
Qed.

Lemma cos_turns (y : R) (q : Z) : cos (y + 2 * PI * IZR q)%R = cos y.
Proof.
  destruct (Z.le_gt_cases 0 q) as [Hq | Hq].
  - rewrite <- (Z2Nat.id q Hq), <- INR_IZR_INZ.
    rewrite <- (cos_period y (Z.to_nat q)). f_equal. ring.
  - replace q with (- Z.of_nat (Z.to_nat (- q)))%Z by lia.
    rewrite opp_IZR, <- INR_IZR_INZ.
    rewrite <- (cos_turns_nat y (Z.to_nat (- q))). f_equal. ring.
Qed.

Lemma length_linspace_real (a b : R) (N : nat) :
  length (linspace_real a b N) = N.
Proof. unfold linspace_real. now rewrite length_map, length_seq. Qed.

Lemma length_cos_wave (L : R) (x : list R) : length (cos_wave L x) = length x.
Proof. apply length_map. Qed.

(** Entry [j] of the wave sampled on the grid. *)
Lemma nth_cos_wave (L : R) (N j : nat) (d : R) :
  L <> 0%R -> (j < N)%nat ->
  nth j (cos_wave L (linspace_real 0 L N)) d = cos (2 * PI * INR j / INR N)%R.
Proof.
  intros HL Hj. unfold cos_wave, linspace_real.
  rewrite map_map, nth_map_seq by assumption.
  assert (HN0 : INR N <> 0%R) by (apply not_0_INR; lia).
  f_equal. field. split; assumption.
Qed.

(** The wave is periodic in the index: entry [z mod N] is the cosine at
    [z]. *)
Lemma nth_cos_wave_wrap (L : R) (N : nat) (z : Z) (d : R) :
  L <> 0%R -> (0 < N)%nat ->
  nth (wrap N z) (cos_wave L (linspace_real 0 L N)) d
  = cos (2 * PI * IZR z / INR N)%R.
Proof.
  intros HL HN.
  rewrite nth_cos_wave by (assumption || now apply wrap_lt).
  assert (HN0 : INR N <> 0%R) by (apply not_0_INR; lia).
  unfold wrap. rewrite INR_IZR_INZ.
  rewrite Z2Nat.id by (apply Z.mod_pos_bound; lia).
  rewrite <- (cos_turns _ (z / Z.of_nat N)). f_equal.
  rewrite (Z_div_mod_eq_full z (Z.of_nat N)) at 3.
  rewrite plus_IZR, mult_IZR, <- !INR_IZR_INZ.
  field. exact HN0.
Qed.

Lemma animate_ok (L T dt : R) (x : list R) (i : nat) :
  T <> 0%R ->
  animate L T dt x i
  = Ok (x, map (fun xj => cos (2 * PI * (xj / L - INR i * dt / T))%R) x).
Proof.
  intros HT. unfold animate.
  destruct (Req_dec_T T 0%R) as [E | _]; [contradiction | reflexivity].
Qed.

(** X15: in exact real arithmetic, for [L] and [T] other than zero,
    frame 0 of the animation draws the grid against the initial
    condition [cos(2*pi*x/L)]; for [T = 0] every frame raises
    [ZeroDivisionError]. *)
Theorem animate_first_frame (L T dt : R) (x : list R) (i : nat) :
  L <> 0%R -> T <> 0%R ->
  animate L T dt x 0 = Ok (x, cos_wave L x) /\
  animate L 0%R dt x i = Raise ZeroDivisionError.
Proof.
  intros _ HT. split.
  - rewrite animate_ok by assumption. unfold cos_wave.
    do 2 f_equal. apply map_ext. intros xj. f_equal.
    simpl INR. unfold Rdiv. ring.
  - unfold animate.
    destruct (Req_dec_T 0%R 0%R) as [_ | E]; [reflexivity | now elim E].
Qed.

Lemma animate_first_frame_witness :
  100%R <> 0%R /\ 10%R <> 0%R /\
  animate 100%R 10%R (/ 1000)%R [0%R; 25%R; 50%R; 75%R] 0
  = Ok ([0%R; 25%R; 50%R; 75%R], cos_wave 100%R [0%R; 25%R; 50%R; 75%R]) /\
  animate 100%R 0%R (/ 1000)%R [0%R; 25%R; 50%R; 75%R] 7
  = Raise ZeroDivisionError.
Proof.
  assert (HL : 100%R <> 0%R) by Lra.lra.
  assert (HT : 10%R <> 0%R) by Lra.lra.
  split; [exact HL|]. split; [exact HT|].
  exact (@animate_first_frame 100%R 10%R (/ 1000)%R
           [0%R; 25%R; 50%R; 75%R] 7 HL HT).
Defined.

(** X16: in exact real arithmetic, for [L] and [T] other than zero,
    every frame holds the grid and as many values as the grid has
    points, each between -1 and 1, inside the y-limits (-1.5, 1.5) the
    cell sets. *)
Theorem animate_frame_is_bounded (L T dt : R) (x : list R) (i : nat) :
  L <> 0%R -> T <> 0%R ->
  exists u,
    animate L T dt x i = Ok (x, u) /\
    length u = length x /\
    Forall (fun v => (-1 <= v <= 1)%R /\ (-1.5 < v < 1.5)%R) u.
Proof.
  intros _ HT. eexists. split; [now apply animate_ok|].
  split; [apply length_map|].
  apply Forall_forall. intros v Hv.
  apply in_map_iff in Hv. destruct Hv as [xj [E _]]. subst v.
  pose proof (COS_bound (2 * PI * (xj / L - INR i * dt / T))) as [Hlo Hhi].
  repeat split; Lra.lra.
Qed.

Lemma animate_frame_is_bounded_witness :
  100%R <> 0%R /\ 10%R <> 0%R /\
  exists u,
    animate 100%R 10%R (/ 1000)%R [0%R; 25%R; 50%R; 75%R] 3
    = Ok ([0%R; 25%R; 50%R; 75%R], u) /\
    length u = length [0%R; 25%R; 50%R; 75%R] /\
    Forall (fun v => (-1 <= v <= 1)%R /\ (-1.5 < v < 1.5)%R) u.
Proof.
  assert (HL : 100%R <> 0%R) by Lra.lra.
  assert (HT : 10%R <> 0%R) by Lra.lra.
  split; [exact HL|]. split; [exact HT|].
  exact (@animate_frame_is_bounded 100%R 10%R (/ 1000)%R
           [0%R; 25%R; 50%R; 75%R] 3 HL HT).
Defined.

(** X17: in exact real arithmetic, for [L] and [T] other than zero,
    when [Nt] steps of [dt] make up [T], the frames repeat with period
    [Nt]: frame [i + Nt] is frame [i], so the [Nt] frames of the
    animation show one full period and frame [Nt] would be frame 0
    again. *)
Theorem animate_frames_repeat (L T dt : R) (x : list R) (i Nt : nat) :
  L <> 0%R -> T <> 0%R -> (INR Nt * dt)%R = T ->
  animate L T dt x (i + Nt) = animate L T dt x i.
Proof.
  intros _ HT HNt. rewrite !animate_ok by assumption.
  do 2 f_equal. apply map_ext. intros xj.
  rewrite <- (cos_turns (2 * PI * (xj / L - INR (i + Nt) * dt / T)) 1).
  f_equal. rewrite plus_INR.
  assert (H1 : (INR Nt * dt / T)%R = 1%R) by (rewrite HNt; now field).
  assert (E : ((INR i + INR Nt) * dt / T)%R = (INR i * dt / T + 1)%R)
    by (rewrite <- H1; unfold Rdiv; ring).
  rewrite E. ring.
Qed.

Lemma animate_frames_repeat_witness :
  100%R <> 0%R /\ 10%R <> 0%R /\ (INR 4 * (5 / 2))%R = 10%R /\
  animate 100%R 10%R (5 / 2)%R [0%R; 25%R; 50%R; 75%R] (1 + 4)
  = animate 100%R 10%R (5 / 2)%R [0%R; 25%R; 50%R; 75%R] 1.
Proof.
  assert (HL : 100%R <> 0%R) by Lra.lra.
  assert (HT : 10%R <> 0%R) by Lra.lra.
  assert (HNt : (INR 4 * (5 / 2))%R = 10%R) by (simpl; Lra.lra).
  split; [exact HL|]. split; [exact HT|]. split; [exact HNt|].
  exact (@animate_frames_repeat 100%R 10%R (5 / 2)%R
           [0%R; 25%R; 50%R; 75%R] 1 4 HL HT HNt).
Defined.

(** X18: in exact real arithmetic, for [L] and [T] other than zero,
    the animation is the initial wave travelling to the right: on
    the grid of [Nx] points, a frame whose time fraction [i*dt/T] is [m]
    grid cells, [m/Nx], is the initial condition rolled by [m]. *)
Theorem animate_frame_is_rolled_wave (L T dt : R) (Nx i m : nat) :
  L <> 0%R -> T <> 0%R -> (0 < Nx)%nat ->
  (INR i * dt / T)%R = (INR m / INR Nx)%R ->
  animate L T dt (linspace_real 0 L Nx) i
  = Ok (linspace_real 0 L Nx,
        roll (cos_wave L (linspace_real 0 L Nx)) (Z.of_nat m)).
Proof.
  intros HL HT HN Hm. rewrite animate_ok by assumption.
  do 2 f_equal.
  assert (HN0 : INR Nx <> 0%R) by (apply not_0_INR; lia).
  apply nth_ext with (d := 0%R) (d' := 0%R).
  - now rewrite length_map, length_roll, length_cos_wave.
  - intros j Hj. rewrite length_map, length_linspace_real in Hj.
    rewrite nth_roll by (now rewrite length_cos_wave, length_linspace_real).
    rewrite length_cos_wave, length_linspace_real.
    rewrite nth_cos_wave_wrap by assumption.
    unfold linspace_real. rewrite map_map, nth_map_seq by assumption.
    rewrite Hm. f_equal.
    rewrite minus_IZR, <- !INR_IZR_INZ.
    field. split; assumption.
Qed.

Lemma animate_frame_is_rolled_wave_witness :
  100%R <> 0%R /\ 10%R <> 0%R /\ (0 < 4)%nat /\
  (INR 3 * (5 / 2) / 10)%R = (INR 3 / INR 4)%R /\
  animate 100%R 10%R (5 / 2)%R (linspace_real 0 100 4) 3
  = Ok (linspace_real 0 100 4,
        roll (cos_wave 100%R (linspace_real 0 100 4)) (Z.of_nat 3)).
Proof.
  assert (HL : 100%R <> 0%R) by Lra.lra.
  assert (HT : 10%R <> 0%R) by Lra.lra.
  assert (HN : (0 < 4)%nat) by lia.
  assert (Hm : (INR 3 * (5 / 2) / 10)%R = (INR 3 / INR 4)%R)
    by (simpl; Lra.lra).
  split; [exact HL|]. split; [exact HT|]. split; [exact HN|].
  split; [exact Hm|].
  exact (@animate_frame_is_rolled_wave 100%R 10%R (5 / 2)%R 4 3 3 HL HT HN Hm).
Defined.

(** X19: on the notebook's initial condition the stencil acts as the
    third derivative does on a cosine: with [theta = 2*pi/Nx], entry [j]
    of [third_d(u0, dx)] is the sine wave [sin(theta*j)] times
    [(2 sin(theta) - sin(2 theta)) / dx^3]. *)
Theorem third_d_of_cos_wave (L dx : R) (Nx j : nat) :
  L <> 0%R -> dx <> 0%R -> (j < Nx)%nat ->
  item (third_d (cos_wave L (linspace_real 0 L Nx)) dx) j
  = ((2 * sin (2 * PI / INR Nx) - sin (2 * (2 * PI / INR Nx))) / dx ^ 3
     * sin (2 * PI / INR Nx * INR j))%R.
Proof.
  intros HL Hdx Hj.
  assert (HN : (0 < Nx)%nat) by lia.
  assert (HN0 : INR Nx <> 0%R) by (apply not_0_INR; lia).
  rewrite item_third_d by (now rewrite length_cos_wave, length_linspace_real).
  rewrite length_cos_wave, length_linspace_real.
  unfold item. rewrite !nth_cos_wave_wrap by assumption.
  cbn [add sub mul div two cube R_scalar].
  set (th := (2 * PI / INR Nx)%R).
  set (a := (th * INR j)%R).
  replace (2 * PI * IZR (Z.of_nat j + 2) / INR Nx)%R with (a + 2 * th)%R
    by (subst a th; rewrite plus_IZR, <- INR_IZR_INZ; now field).
  replace (2 * PI * IZR (Z.of_nat j + 1) / INR Nx)%R with (a + th)%R
    by (subst a th; rewrite plus_IZR, <- INR_IZR_INZ; now field).
  replace (2 * PI * IZR (Z.of_nat j - 1) / INR Nx)%R with (a - th)%R
    by (subst a th; rewrite minus_IZR, <- INR_IZR_INZ; now field).
  replace (2 * PI * IZR (Z.of_nat j - 2) / INR Nx)%R with (a - 2 * th)%R
    by (subst a th; rewrite minus_IZR, <- INR_IZR_INZ; now field).
  rewrite !cos_plus, !cos_minus.
  field. exact Hdx.
Qed.

Lemma third_d_of_cos_wave_witness :
  100%R <> 0%R /\ (/ 2)%R <> 0%R /\ (3 < 8)%nat /\
  item (third_d (cos_wave 100%R (linspace_real 0 100 8)) (/ 2)%R) 3
  = ((2 * sin (2 * PI / INR 8) - sin (2 * (2 * PI / INR 8))) / (/ 2) ^ 3
     * sin (2 * PI / INR 8 * INR 3))%R.
Proof.
  assert (HL : 100%R <> 0%R) by Lra.lra.
  assert (Hdx : (/ 2)%R <> 0%R) by Lra.lra.
  assert (Hj : (3 < 8)%nat) by lia.
  split; [exact HL|]. split; [exact Hdx|]. split; [exact Hj|].
  exact (@third_d_of_cos_wave 100%R (/ 2)%R 8 3 HL Hdx Hj).
Defined.
